(** * AudioMoth deployment completeness analyzer

    A shallow embedding of [scripts/data-validation/data-report.py] and the
    properties its specification states about it.

    Conventions of the embedding.
    - File names are [string]s whose characters are code points below 256.
      In that range the only characters matched by the regular-expression
      class [\d] are the ASCII digits.
    - A Python exception is a value [Raise e] of the [result] type; a bare
      [except:] handler is a [match] on it.
    - Python floats are read as exact rationals ([Q]).  The quantities the
      script computes are quotients of small integers (seconds by 86400, an
      event count by an expected count), so the idealisation only ignores
      binary64 rounding.
    - A [dict] is an association list in insertion order; [defaultdict] is
      the same list with a default at lookup. *)

From Stdlib Require Import ZArith QArith Qround List Bool Ascii String Lia Lqa.
From Stdlib Require Import Sorting.Sorted Sorting.Permutation.
Import ListNotations.

Local Open Scope string_scope.
Local Open Scope list_scope.
Local Open Scope Z_scope.

(** ** Exceptions *)

Inductive exn : Type :=
| ValueError
| IndexError
| ZeroDivisionError
| KeyError (key : string).

Inductive result (A : Type) : Type :=
| Ok (a : A)
| Raise (e : exn).

Arguments Ok {A} a.
Arguments Raise {A} e.

Definition bind {A B : Type} (r : result A) (k : A -> result B) : result B :=
  match r with
  | Ok a => k a
  | Raise e => Raise e
  end.

Notation "x <- r ;; k" := (bind r (fun x => k))
  (at level 61, r at next level, right associativity).

(** ** Strings *)

(** [s.replace(old, "")]: every non-overlapping occurrence of [old], found
    scanning left to right, is dropped.  [skip] counts the characters of an
    occurrence that are still to be dropped. *)
Fixpoint str_remove_from (skip : nat) (old s : string) : string :=
  match s with
  | EmptyString => EmptyString
  | String c s' =>
      match skip with
      | S k => str_remove_from k old s'
      | O =>
          if String.prefix old s
          then str_remove_from (Nat.pred (String.length old)) old s'
          else String c (str_remove_from O old s')
      end
  end.

Definition str_remove (old s : string) : string := str_remove_from O old s.

(** [c in s] for a one-character needle. *)
Fixpoint str_contains (c : ascii) (s : string) : bool :=
  match s with
  | EmptyString => false
  | String a s' => Ascii.eqb a c || str_contains c s'
  end.

(** [s.split(c)[0]]: the text before the first [c], all of [s] without one. *)
Fixpoint split_first (c : ascii) (s : string) : string :=
  match s with
  | EmptyString => EmptyString
  | String a s' => if Ascii.eqb a c then EmptyString else String a (split_first c s')
  end.

(** ** Decimal digits *)

Definition digit_val (c : ascii) : option Z :=
  let n := Z.of_nat (nat_of_ascii c) in
  if (48 <=? n) && (n <=? 57) then Some (n - 48) else None.

Definition digit_char (n : Z) : ascii := ascii_of_nat (Z.to_nat (48 + n)).

Definition two_digits (n : Z) (rest : string) : string :=
  String (digit_char (n / 10)) (String (digit_char (n mod 10)) rest).

Definition four_digits (n : Z) (rest : string) : string :=
  two_digits (n / 100) (two_digits (n mod 100) rest).

(** ** datetime *)

Record datetime : Type := mkdt {
  year : Z; month : Z; day : Z; hour : Z; minute : Z; second : Z
}.

Record date : Type := mkdate { dyear : Z; dmonth : Z; dday : Z }.

Definition date_of (t : datetime) : date := mkdate (year t) (month t) (day t).

Definition is_leap (y : Z) : bool :=
  (y mod 4 =? 0) && (negb (y mod 100 =? 0) || (y mod 400 =? 0)).

Definition days_in_month (y m : Z) : Z :=
  if m =? 2 then (if is_leap y then 29 else 28)
  else if (m =? 4) || (m =? 6) || (m =? 9) || (m =? 11) then 30
  else 31.

Definition between (lo x hi : Z) : bool := (lo <=? x) && (x <=? hi).

(** The field checks of the [datetime] constructor. *)
Definition valid_datetime (t : datetime) : bool :=
  between 1 (year t) 9999 && between 1 (month t) 12
  && between 1 (day t) (days_in_month (year t) (month t))
  && between 0 (hour t) 23 && between 0 (minute t) 59
  && between 0 (second t) 59.

Definition days_before_year (y : Z) : Z :=
  let p := y - 1 in p * 365 + p / 4 - p / 100 + p / 400.

Fixpoint days_before_month_from (y : Z) (k : nat) : Z :=
  match k with
  | O => 0
  | S k' => days_before_month_from y k' + days_in_month y (Z.of_nat k)
  end.

Definition days_before_month (y m : Z) : Z :=
  days_before_month_from y (Z.to_nat (m - 1)).

Definition toordinal (d : date) : Z :=
  days_before_year (dyear d) + days_before_month (dyear d) (dmonth d) + dday d.

(** [(a - b).total_seconds()], an integer for whole-second instants. *)
Definition total_seconds_between (a b : datetime) : Z :=
  (toordinal (date_of a) - toordinal (date_of b)) * 86400
  + ((second a + minute a * 60 + hour a * 3600)
     - (second b + minute b * 60 + hour b * 3600)).

(** Comparison of datetimes is that of their field tuples. *)
Fixpoint lex_leb (a b : list Z) : bool :=
  match a, b with
  | x :: a', y :: b' => (x <? y) || ((x =? y) && lex_leb a' b')
  | _, _ => true
  end.

Definition dt_fields (t : datetime) : list Z :=
  [year t; month t; day t; hour t; minute t; second t].

Definition dt_leb (a b : datetime) : bool := lex_leb (dt_fields a) (dt_fields b).

Definition date_fields (d : date) : list Z := [dyear d; dmonth d; dday d].

Definition date_leb (a b : date) : bool := lex_leb (date_fields a) (date_fields b).

Definition date_eqb (a b : date) : bool :=
  (dyear a =? dyear b) && (dmonth a =? dmonth b) && (dday a =? dday b).

(** ** strptime for the format [%Y%m%d_%H%M%S]

    CPython compiles the format to the regular expression
    [(\d\d\d\d)(1[0-2]|0[1-9]|[1-9])(3[0-1]|[1-2]\d|0[1-9]|[1-9]| [1-9])_
     (2[0-3]|[0-1]\d|\d)([0-5]\d|\d)(6[0-1]|[0-5]\d|\d)],
    matches it at the start of the text with backtracking, and rejects the
    text when the first match found leaves characters unread.  A group is
    modelled by the list of its possible matches, preferred first. *)

Definition alts : Type := list (Z * string).

Definition re_two (p : Z -> Z -> bool) (s : string) : alts :=
  match s with
  | String a (String b r) =>
      match digit_val a, digit_val b with
      | Some x, Some y => if p x y then [(10 * x + y, r)] else []
      | _, _ => []
      end
  | _ => []
  end.

Definition re_one (p : Z -> bool) (s : string) : alts :=
  match s with
  | String a r =>
      match digit_val a with
      | Some x => if p x then [(x, r)] else []
      | None => []
      end
  | _ => []
  end.

Definition re_space_one (p : Z -> bool) (s : string) : alts :=
  match s with
  | String " " r => re_one p r
  | _ => []
  end.

Definition re_lit (c : ascii) (s : string) : list string :=
  match s with
  | String a r => if Ascii.eqb a c then [r] else []
  | _ => []
  end.

Definition re_Y (s : string) : alts :=
  flat_map (fun '(hi, r) => map (fun '(lo, r') => (100 * hi + lo, r'))
                                (re_two (fun _ _ => true) r))
           (re_two (fun _ _ => true) s).

Definition re_m (s : string) : alts :=
  re_two (fun a b => (a =? 1) && (b <=? 2)) s
  ++ re_two (fun a b => (a =? 0) && (1 <=? b)) s
  ++ re_one (fun a => 1 <=? a) s.

Definition re_d (s : string) : alts :=
  re_two (fun a b => (a =? 3) && (b <=? 1)) s
  ++ re_two (fun a _ => between 1 a 2) s
  ++ re_two (fun a b => (a =? 0) && (1 <=? b)) s
  ++ re_one (fun a => 1 <=? a) s
  ++ re_space_one (fun a => 1 <=? a) s.

Definition re_H (s : string) : alts :=
  re_two (fun a b => (a =? 2) && (b <=? 3)) s
  ++ re_two (fun a _ => a <=? 1) s
  ++ re_one (fun _ => true) s.

Definition re_M (s : string) : alts :=
  re_two (fun a _ => a <=? 5) s ++ re_one (fun _ => true) s.

Definition re_S (s : string) : alts :=
  re_two (fun a b => (a =? 6) && (b <=? 1)) s
  ++ re_two (fun a _ => a <=? 5) s
  ++ re_one (fun _ => true) s.

(** All matches of the whole expression, in the order the backtracking
    matcher would find them, each with the unread text. *)
Definition re_matches (s : string) : list (datetime * string) :=
  flat_map (fun '(Y, r1) =>
  flat_map (fun '(m, r2) =>
  flat_map (fun '(d, r3) =>
  flat_map (fun r4 =>
  flat_map (fun '(hh, r5) =>
  flat_map (fun '(mm, r6) =>
  map (fun '(ss, r7) => (mkdt Y m d hh mm ss, r7)) (re_S r6))
    (re_M r5)) (re_H r4)) (re_lit "_" r3)) (re_d r2)) (re_m r1)) (re_Y s).

Definition strptime (s : string) : result datetime :=
  match re_matches s with
  | [] => Raise ValueError
  | (t, rest) :: _ =>
      match rest with
      | EmptyString => if valid_datetime t then Ok t else Raise ValueError
      | _ => Raise ValueError
      end
  end.

(** ** parse_audiomoth_filename *)

Definition min_valid_year : Z := 2024.

Definition parse_audiomoth_filename (filename : string) : option datetime :=
  let base := str_remove ".wav" (str_remove ".WAV" filename) in
  match strptime base with
  | Ok dt => if year dt <? min_valid_year then None else Some dt
  | Raise _ => None
  end.


(** ** Floats

    [np.median] of an empty list is [nan]; every other float of the script
    is a finite number. *)

Inductive pyfloat : Type :=
| Fin (q : Q)
| NaN.

(** [x > 0]; false on [nan]. *)
Definition fpos (x : pyfloat) : bool :=
  match x with
  | Fin q => negb (Qle_bool q 0)
  | NaN => false
  end.

Definition fmul (x : pyfloat) (y : Q) : pyfloat :=
  match x with
  | Fin q => Fin (q * y)
  | NaN => NaN
  end.

(** [int(x)] truncates towards zero and rejects [nan]. *)
Definition trunc (q : Q) : Z := if Qle_bool 0 q then Qfloor q else Qceiling q.

Definition py_int (x : pyfloat) : result Z :=
  match x with
  | Fin q => Ok (trunc q)
  | NaN => Raise ValueError
  end.

(** [a / b] on integers. *)
Definition truediv (a b : Z) : result Q :=
  if b =? 0 then Raise ZeroDivisionError else Ok (inject_Z a / inject_Z b)%Q.

(** [round(x, 2)], ties to even. *)
Definition round_half_even (q : Q) : Z :=
  let f := Qfloor q in
  let r := (q - inject_Z f)%Q in
  match Qcompare r (1 # 2) with
  | Lt => f
  | Gt => f + 1
  | Eq => if Z.even f then f else f + 1
  end.

Definition round2 (q : Q) : Q := (inject_Z (round_half_even (q * 100)) / 100)%Q.

(** ** sorted *)

Section Sort.
Context {A : Type} (leb : A -> A -> bool).

Fixpoint insert_sorted (x : A) (l : list A) : list A :=
  match l with
  | [] => [x]
  | y :: l' => if leb x y then x :: l else y :: insert_sorted x l'
  end.

(** A stable sort, as Python's. *)
Fixpoint sorted (l : list A) : list A :=
  match l with
  | [] => []
  | x :: l' => insert_sorted x (sorted l')
  end.

End Sort.

(** [np.median]: the middle element of the sorted values, or the mean of
    the two middle ones. *)
Definition np_median (l : list Q) : pyfloat :=
  let s := sorted Qle_bool l in
  let n := List.length s in
  match n with
  | O => NaN
  | _ =>
      if Nat.even n
      then Fin ((nth (Nat.div n 2 - 1) s 0 + nth (Nat.div n 2) s 0) / 2)%Q
      else Fin (nth (Nat.div n 2) s 0%Q)
  end.

(** ** Deployment folders *)

(** A directory: its name and the names of the files in it, in the order
    the file system lists them. *)
Record Path : Type := mkPath { name : string; entries : list string }.

Fixpoint ends_with (suffix s : string) : bool :=
  String.eqb suffix s
  || match s with
     | EmptyString => false
     | String _ s' => ends_with suffix s'
     end.

(** [p.glob("*" + suffix)], case-sensitive. *)
Definition glob (p : Path) (suffix : string) : list string :=
  filter (ends_with suffix) (entries p).

Definition path_leb (a b : Path) : bool := String.leb (name a) (name b).

(** [n.split("-")[0] if "-" in n else n] *)
Definition base_name_of (n : string) : string :=
  if str_contains "-" n then split_first "-" n else n.

(** [merged_sites[k].append(v)] on a [defaultdict(list)]. *)
Fixpoint dict_append (k : string) (v : Path) (m : list (string * list Path))
  : list (string * list Path) :=
  match m with
  | [] => [(k, [v])]
  | (k', vs) :: m' =>
      if String.eqb k' k then (k', vs ++ [v]) :: m'
      else (k', vs) :: dict_append k v m'
  end.

Definition merge_continuous_deployments (site_dirs : list Path)
  : list (string * list Path) :=
  fold_left (fun merged_sites site_dir =>
               dict_append (base_name_of (name site_dir)) site_dir merged_sites)
            site_dirs [].

(** ** find_gaps *)

Definition gap : Type := (datetime * datetime * Q)%type.

Definition epoch : datetime := mkdt 1 1 1 0 0 0.

Definition find_gaps (timestamps : list datetime) (max_gap_minutes : Z) : list gap :=
  flat_map
    (fun i =>
       let a := nth i timestamps epoch in
       let b := nth (S i) timestamps epoch in
       let gap_seconds := inject_Z (total_seconds_between b a) in
       let gap_minutes := (gap_seconds / 60)%Q in
       if negb (Qle_bool gap_minutes (inject_Z max_gap_minutes))
       then [(a, b, (gap_seconds / 3600)%Q)]
       else [])
    (seq 0 (List.length timestamps - 1)).

(** ** Daily counts *)

(** [daily_counts[d] += 1] on a [defaultdict(int)]. *)
Fixpoint dict_incr (d : date) (m : list (date * Z)) : list (date * Z) :=
  match m with
  | [] => [(d, 1)]
  | (k, v) :: m' =>
      if date_eqb k d then (k, v + 1) :: m' else (k, v) :: dict_incr d m'
  end.

(** [m.get(d, default)] *)
Fixpoint dict_get (d : date) (m : list (date * Z)) (default : Z) : Z :=
  match m with
  | [] => default
  | (k, v) :: m' => if date_eqb k d then v else dict_get d m' default
  end.

Definition count_daily (timestamps : list datetime) : list (date * Z) :=
  fold_left (fun daily_counts ts => dict_incr (date_of ts) daily_counts)
            timestamps [].

(** ** analyze_merged_site *)

(** The result dictionary.  The three keys the empty-site branch leaves out
    are [option]s; [None] is an absent key. *)
Record site_result : Type := mkresult {
  site : string;
  deployment_folders : list string;
  n_folders : Z;
  n_files : Z;
  invalid_files : Z;
  first_recording : option datetime;
  last_recording : option datetime;
  duration_days : Q;
  actual_recordings : Z;
  expected_recordings : option Z;
  completeness_pct : option Q;
  median_daily_recordings : option pyfloat;
  timestamps : list datetime;
  gaps : list gap;
  daily_counts : list (date * Z)
}.

(** [r[key]] *)
Definition getitem {A : Type} (key : string) (field : option A) : result A :=
  match field with
  | Some v => Ok v
  | None => Raise (KeyError key)
  end.

Definition len {A : Type} (l : list A) : Z := Z.of_nat (List.length l).

(** The inner loop over the files of one folder. *)
Definition scan_files (wav_files : list string) (st : list datetime * Z)
  : list datetime * Z :=
  fold_left
    (fun '(all_timestamps, invalid) f =>
       match parse_audiomoth_filename f with
       | Some ts => (all_timestamps ++ [ts], invalid)
       | None => (all_timestamps, invalid + 1)
       end)
    wav_files st.

(** The outer loop: timestamps, [total_files] and [invalid_files]. *)
Definition scan_site (site_paths : list Path) : list datetime * Z * Z :=
  fold_left
    (fun '(all_timestamps, total_files, invalid) site_path =>
       let wav_files := glob site_path ".WAV" ++ glob site_path ".wav" in
       let '(all_timestamps', invalid') :=
         scan_files wav_files (all_timestamps, invalid) in
       (all_timestamps', total_files + len wav_files, invalid'))
    (sorted path_leb site_paths) ([], 0, 0).

Definition analyze_merged_site (site_paths : list Path) : result site_result :=
  match site_paths with
  | [] => Raise IndexError
  | p0 :: _ =>
      let base_site_name := base_name_of (name p0) in
      let '(unsorted, total_files, invalid) := scan_site site_paths in
      match unsorted with
      | [] =>
          Ok {| site := base_site_name;
                deployment_folders := map name site_paths;
                n_folders := len site_paths;
                n_files := total_files;
                invalid_files := invalid;
                first_recording := None;
                last_recording := None;
                duration_days := 0;
                actual_recordings := 0;
                expected_recordings := None;
                completeness_pct := None;
                median_daily_recordings := None;
                timestamps := [];
                gaps := [];
                daily_counts := [] |}
      | t0 :: _ =>
          let all_timestamps := sorted dt_leb unsorted in
          let first_rec := hd t0 all_timestamps in
          let last_rec := last all_timestamps t0 in
          let duration :=
            (inject_Z (total_seconds_between last_rec first_rec) / 86400)%Q in
          let counts := count_daily all_timestamps in
          let found := find_gaps all_timestamps 10 in
          let median_daily :=
            match counts with
            | [] => Fin 0
            | _ => np_median (map (fun kv => inject_Z (snd kv)) counts)
            end in
          expected_total <-
            (if fpos median_daily then py_int (fmul median_daily duration)
             else Ok (len all_timestamps)) ;;
          pct <-
            (if 0 <? expected_total
             then q <- truediv (len all_timestamps) expected_total ;; Ok (q * 100)%Q
             else Ok 100%Q) ;;
          Ok {| site := base_site_name;
                deployment_folders := map name site_paths;
                n_folders := len site_paths;
                n_files := total_files;
                invalid_files := invalid;
                first_recording := Some first_rec;
                last_recording := Some last_rec;
                duration_days := duration;
                actual_recordings := len all_timestamps;
                expected_recordings := Some expected_total;
                completeness_pct := Some pct;
                median_daily_recordings := Some median_daily;
                timestamps := all_timestamps;
                gaps := found;
                daily_counts := counts |}
      end
  end.

(** ** create_daily_heatmap_data *)

Inductive cell : Type :=
| CStr (s : string)
| CInt (n : Z).

(** A row dictionary of the table; a [DataFrame] is the list of its rows. *)
Definition row : Type := list (string * cell).

(** [row[k] = v] *)
Fixpoint dict_set (k : string) (v : cell) (r : row) : row :=
  match r with
  | [] => [(k, v)]
  | (k', v') :: r' =>
      if String.eqb k' k then (k', v) :: r' else (k', v') :: dict_set k v r'
  end.

Fixpoint row_get (k : string) (r : row) : option cell :=
  match r with
  | [] => None
  | (k', v) :: r' => if String.eqb k' k then Some v else row_get k r'
  end.

(** [d.strftime("%Y-%m-%d")] *)
Definition strftime_ymd (d : date) : string :=
  four_digits (dyear d)
    (String "-" (two_digits (dmonth d) (String "-" (two_digits (dday d) "")))).

(** [all_dates.update(keys)] on a set, kept as a duplicate-free list. *)
Definition set_update (s : list date) (keys : list date) : list date :=
  fold_left (fun s k => if existsb (date_eqb k) s then s else s ++ [k]) keys s.

Definition union_dates (site_results : list site_result) : list date :=
  fold_left (fun all_dates r => set_update all_dates (map fst (daily_counts r)))
            site_results [].

Definition heatmap_row (all_dates : list date) (r : site_result) : row :=
  fold_left (fun row d =>
               dict_set (strftime_ymd d) (CInt (dict_get d (daily_counts r) 0)) row)
            all_dates [("Site", CStr (site r))].

Definition create_daily_heatmap_data (site_results : list site_result) : list row :=
  match union_dates site_results with
  | [] => []
  | all_dates => map (heatmap_row (sorted date_leb all_dates)) site_results
  end.

(** ** analyze_all_sites *)

(** The completeness column of a printed site line: a percentage, or
    the text [N/A]. *)
Inductive completeness_str : Type :=
| Percent (q : Q)
| NotApplicable.

Record site_line : Type := mkline {
  line_site : string;
  line_folders : list string;
  line_files : Z;
  line_completeness : completeness_str;
  line_gaps : Z
}.

Record summary_row : Type := mksummary {
  Site : string;
  Deployment_Folders : list string;
  Total_Files : Z;
  Invalid_Files : Z;
  Valid_Recordings : Z;
  Expected_Recordings : Z;
  Completeness_pct : Q;
  Median_Daily_Recordings : Z;
  First_Recording : option datetime;
  Last_Recording : option datetime;
  Duration_days : Q;
  N_Gaps_10min : Z
}.

Record gap_row : Type := mkgaprow {
  Gap_Site : string;
  Gap_Start : datetime;
  Gap_End : datetime;
  Gap_Duration_hours : Q
}.

Record global_stats : Type := mkglobal {
  Unique_Sites : Z;
  Deployment_Folder_Count : Z;
  Global_First_Recording : datetime;
  Global_Last_Recording : datetime;
  Global_Duration_days : Q;
  Global_Valid_Recordings : Z;
  Global_Expected_Recordings : Z;
  Global_Completeness_pct : Q;
  Invalid_Timestamps : Z;
  Total_Gaps_10min : Z
}.

Record report : Type := mkreport {
  printed : list site_line;
  site_results : list site_result;
  summary_df : list summary_row;
  gaps_df : list gap_row;
  heatmap_df : list row;
  global_summary : option global_stats
}.

(** [for x in l: ...] with a body that may raise. *)
Fixpoint for_each {A B : Type} (f : A -> result B) (l : list A) : result (list B) :=
  match l with
  | [] => Ok []
  | x :: l' => y <- f x ;; ys <- for_each f l' ;; Ok (y :: ys)
  end.

(** One turn of the loop over the merged sites: the analysis, then the
    printed line. *)
Definition site_step (site_paths : list Path) : result (site_result * site_line) :=
  r <- analyze_merged_site site_paths ;;
  pct <- getitem "completeness_pct" (completeness_pct r) ;;
  let completeness :=
    if negb (Qle_bool pct 0) then Percent pct else NotApplicable in
  Ok (r, mkline (site r) (deployment_folders r) (n_files r) completeness
                (len (gaps r))).

Definition summary_of (r : site_result) : result summary_row :=
  expected <- getitem "expected_recordings" (expected_recordings r) ;;
  pct <- getitem "completeness_pct" (completeness_pct r) ;;
  median <- getitem "median_daily_recordings" (median_daily_recordings r) ;;
  median_int <- py_int median ;;
  Ok (mksummary (site r) (deployment_folders r) (n_files r) (invalid_files r)
                (actual_recordings r) expected (round2 pct) median_int
                (first_recording r) (last_recording r)
                (round2 (duration_days r)) (len (gaps r))).

Definition gap_rows_of (r : site_result) : list gap_row :=
  map (fun '(gap_start, gap_end, gap_hours) =>
         mkgaprow (site r) gap_start gap_end (round2 gap_hours))
      (gaps r).

(** The positive per-site medians, read in site order. *)
Fixpoint positive_medians (rs : list site_result) : result (list pyfloat) :=
  match rs with
  | [] => Ok []
  | r :: rs' =>
      m <- getitem "median_daily_recordings" (median_daily_recordings r) ;;
      ms <- positive_medians rs' ;;
      Ok (if fpos m then m :: ms else ms)
  end.

(** [np.median] of a list of floats; a [nan] element cannot be positive,
    so the list handed over holds finite numbers only. *)
Definition finite_values (l : list pyfloat) : list Q :=
  flat_map (fun x => match x with Fin q => [q] | NaN => [] end) l.

Definition global_statistics (results : list site_result) (n_sites n_dirs : Z)
                             (n_gaps : Z) : result (option global_stats) :=
  let unsorted := flat_map timestamps results in
  let total_invalid := fold_left Z.add (map invalid_files results) 0 in
  match unsorted with
  | [] => Ok None
  | t0 :: _ =>
      let all_timestamps := sorted dt_leb unsorted in
      let global_first := hd t0 all_timestamps in
      let global_last := last all_timestamps t0 in
      let global_duration :=
        (inject_Z (total_seconds_between global_last global_first) / 86400)%Q in
      let total_recordings := len all_timestamps in
      ms <- positive_medians results ;;
      let global_median_daily := np_median (finite_values ms) in
      global_expected <-
        py_int (fmul (fmul global_median_daily global_duration) (inject_Z n_sites)) ;;
      global_completeness <-
        (if 0 <? global_expected
         then q <- truediv total_recordings global_expected ;; Ok (q * 100)%Q
         else Ok 0%Q) ;;
      Ok (Some (mkglobal n_sites n_dirs global_first global_last
                         (round2 global_duration) total_recordings
                         global_expected (round2 global_completeness)
                         total_invalid n_gaps))
  end.

(** [base_dir] is [None] when the directory does not exist, and otherwise
    lists its subdirectories.  The function returns [None] for a missing
    directory.  Writing the tables to CSV files is left out. *)
Definition analyze_all_sites (base_dir : option (list Path)) : result (option report) :=
  match base_dir with
  | None => Ok None
  | Some site_dirs =>
      let merged_sites := merge_continuous_deployments site_dirs in
      let items := sorted (fun a b => String.leb (fst a) (fst b)) merged_sites in
      steps <- for_each (fun item => site_step (snd item)) items ;;
      let results := map fst steps in
      summary <- for_each summary_of results ;;
      let gaps_data := flat_map gap_rows_of results in
      let heatmap := create_daily_heatmap_data results in
      stats <- global_statistics results (len merged_sites) (len site_dirs)
                                 (len gaps_data) ;;
      Ok (Some (mkreport (map snd steps) results summary gaps_data heatmap stats))
  end.

(** ** Vocabulary of the specification *)

(** The pairs of neighbours of a sequence, in order. *)
Fixpoint adjacent_pairs {A : Type} (l : list A) : list (A * A) :=
  match l with
  | [] => []
  | a :: l' =>
      match l' with
      | [] => []
      | b :: _ => (a, b) :: adjacent_pairs l'
      end
  end.

(** The elapsed time from [a] to [b] is more than [tol] minutes. *)
Definition elapsed_exceeds (tol : Z) (p : datetime * datetime) : bool :=
  60 * tol <? total_seconds_between (snd p) (fst p).

(** The gap reported for a pair: both events and the hours between them. *)
Definition gap_of (p : datetime * datetime) : gap :=
  (fst p, snd p, (inject_Z (total_seconds_between (snd p) (fst p)) / 3600)%Q).

Definition dt_le (a b : datetime) : Prop := dt_leb a b = true.

Definition gap_start (g : gap) : datetime := fst (fst g).

(** A calendar date as [date] objects can hold. *)
Definition valid_date (d : date) : Prop :=
  1 <= dmonth d <= 12 /\ 1 <= dday d <= days_in_month (dyear d) (dmonth d).

(** The scanned audio files of a folder and the events parsed from them. *)
Definition folder_files (p : Path) : list string := glob p ".WAV" ++ glob p ".wav".

Definition parsed (files : list string) : list datetime :=
  flat_map (fun f => match parse_audiomoth_filename f with
                     | Some ts => [ts]
                     | None => []
                     end) files.

Definition folder_events (p : Path) : list datetime := parsed (folder_files p).

(** The events of a site, in the order the folders are scanned. *)
Definition site_events (site_paths : list Path) : list datetime :=
  flat_map folder_events (sorted path_leb site_paths).

Definition site_files (site_paths : list Path) : list string :=
  flat_map folder_files (sorted path_leb site_paths).

Definition sumZ (l : list Z) : Z := fold_right Z.add 0 l.

(** Elapsed days between two instants. *)
Definition elapsed_days (first_rec last_rec : datetime) : Q :=
  (inject_Z (total_seconds_between last_rec first_rec) / 86400)%Q.

(** The completeness percentage of [actual] events against a baseline. *)
Definition completeness_of (actual expected : Z) : Q :=
  if 0 <? expected then (inject_Z actual / inject_Z expected * 100)%Q else 100%Q.

Definition nonzero (c : Z) : bool := negb (c =? 0).

(** The name the recorder gives a file captured at [t], without its
    extension: [YYYYMMDD_HHMMSS]. *)
Definition audiomoth_name (t : datetime) : string :=
  four_digits (year t)
    (two_digits (month t)
       (two_digits (day t)
          (String "_"
             (two_digits (hour t)
                (two_digits (minute t)
                   (two_digits (second t) EmptyString)))))).

Definition no_dot (s : string) : bool := negb (str_contains "." s).

(** The folders of [site_dirs] whose base name is [k], in order, and the
    base names in order of first appearance. *)
Definition group_of (k : string) (site_dirs : list Path) : list Path :=
  filter (fun d => String.eqb (base_name_of (name d)) k) site_dirs.

Definition first_keys (site_dirs : list Path) : list string :=
  fold_left (fun ks d =>
               if existsb (String.eqb (base_name_of (name d))) ks then ks
               else ks ++ [base_name_of (name d)])
            site_dirs [].

(** The dates a [date] object can hold. *)
Definition date_in_range (d : date) : Prop := 1 <= dyear d <= 9999 /\ valid_date d.

Definition date_le (a b : date) : Prop := date_leb a b = true.

(** The row of a site over the date axis [dates]. *)
Definition dense_row (dates : list date) (r : site_result) : row :=
  ("Site"%string, CStr (site r))
  :: map (fun d => (strftime_ymd d, CInt (dict_get d (daily_counts r) 0))) dates.

(** A site result as the analysis of a site with events builds it: all
    keys present, a median of at least one event a day, valid events. *)
Definition with_events (r : site_result) : Prop :=
  exists m e pct,
    median_daily_recordings r = Some (Fin m) /\ (1 <= m)%Q /\
    expected_recordings r = Some e /\
    completeness_pct r = Some pct /\
    timestamps r <> [] /\
    Forall (fun t => valid_datetime t = true) (timestamps r).

(** ** Further vocabulary *)

(** The number of events of [ts] that fall on the calendar date [d]. *)
Definition events_on (d : date) (ts : list datetime) : Z :=
  len (filter (fun t => date_eqb (date_of t) d) ts).

(** An event the parser can return. *)
Definition plausible (t : datetime) : Prop :=
  valid_datetime t = true /\ min_valid_year <= year t.

(** [r] with its folder list replaced. *)
Definition set_folders (folders : list string) (r : site_result) : site_result :=
  {| site := site r;
     deployment_folders := folders;
     n_folders := n_folders r;
     n_files := n_files r;
     invalid_files := invalid_files r;
     first_recording := first_recording r;
     last_recording := last_recording r;
     duration_days := duration_days r;
     actual_recordings := actual_recordings r;
     expected_recordings := expected_recordings r;
     completeness_pct := completeness_pct r;
     median_daily_recordings := median_daily_recordings r;
     timestamps := timestamps r;
     gaps := gaps r;
     daily_counts := daily_counts r |}.

(** One turn of the site loop that went through: [y] is the result and the
    printed line of the merged site [item]. *)
Definition step_of (item : string * list Path) (y : site_result * site_line) : Prop :=
  site_step (snd item) = Ok y /\
  with_events (fst y) /\
  site (fst y) = fst item /\
  actual_recordings (fst y) = len (timestamps (fst y)) /\
  n_folders (fst y) = len (snd item) /\
  exists pct, (0 < pct)%Q /\
    snd y = mkline (site (fst y)) (deployment_folders (fst y)) (n_files (fst y))
                   (Percent pct) (len (gaps (fst y))).

(** The merged sites in the order the run visits them. *)
Definition sorted_items (site_dirs : list Path) : list (string * list Path) :=
  sorted (fun a b => String.leb (fst a) (fst b))
         (merge_continuous_deployments site_dirs).

(** Every merged site has at least one valid event. *)
Definition all_sites_have_events (site_dirs : list Path) : Prop :=
  forall k g, In (k, g) (merge_continuous_deployments site_dirs) ->
              site_events g <> [].

(** ** data-report-plot.py *)

(** [datetime.strptime(s, "%Y-%m-%d")], by which [create_combined_figure]
    reads the date columns of the heatmap table back.  The regular
    expression is
    [(\d\d\d\d)-(1[0-2]|0[1-9]|[1-9])-(3[0-1]|[1-2]\d|0[1-9]|[1-9]| [1-9])]. *)
Definition re_matches_ymd (s : string) : list (datetime * string) :=
  flat_map (fun '(Y, r1) =>
  flat_map (fun r2 =>
  flat_map (fun '(m, r3) =>
  flat_map (fun r4 =>
  map (fun '(d, r5) => (mkdt Y m d 0 0 0, r5)) (re_d r4))
    (re_lit "-" r3)) (re_m r2)) (re_lit "-" r1)) (re_Y s).

Definition strptime_ymd (s : string) : result datetime :=
  match re_matches_ymd s with
  | [] => Raise ValueError
  | (t, rest) :: _ =>
      match rest with
      | EmptyString => if valid_datetime t then Ok t else Raise ValueError
      | _ => Raise ValueError
      end
  end.

(** [dates = [datetime.strptime(d, "%Y-%m-%d") for d in date_cols]] *)
Definition read_date_columns (date_cols : list string) : result (list datetime) :=
  for_each strptime_ymd date_cols.

Definition half : Q := 1 # 2.

(** [d.strftime("%b")] in the C locale. *)
Definition month_abbr (m : Z) : string :=
  nth (Z.to_nat (m - 1))
      ["Jan"; "Feb"; "Mar"; "Apr"; "May"; "Jun";
       "Jul"; "Aug"; "Sep"; "Oct"; "Nov"; "Dec"]%string EmptyString.

(** The loop of [compute_month_info] from index [i] on; the state is
    (ticks, labels, boundaries, current_month). *)
Fixpoint month_loop (i : Z) (ds : list datetime)
         (st : list Z * list string * list Q * Z)
  : list Z * list string * list Q * Z :=
  match ds with
  | [] => st
  | d :: ds' =>
      let '(ticks, labels, boundaries, current_month) := st in
      if negb (month d =? current_month)
      then month_loop (i + 1) ds'
             (ticks ++ [i], labels ++ [month_abbr (month d)],
              boundaries ++ [Qminus (inject_Z i) half], month d)
      else month_loop (i + 1) ds' st
  end.

Definition compute_month_info (dates : list datetime)
  : result (list Z * list string * list Q) :=
  match dates with
  | [] => Raise IndexError
  | d0 :: rest =>
      let '(ticks, labels, boundaries, _) :=
        month_loop 1 rest ([0], [month_abbr (month d0)], [], month d0) in
      Ok (ticks, labels, boundaries)
  end.

(** [np.unique]: the distinct values in ascending order. *)
Definition np_unique (l : list Z) : list Z := sorted Z.leb (nodup Z.eq_dec l).

(** The bin boundaries of sorted categories: half below the first, the
    midpoints of neighbours, half above the last. *)
Definition midpoint (a b : Z) : Q := (inject_Z (a + b) / 2)%Q.

Definition bin_bounds (categories : list Z) : list Q :=
  [Qminus (inject_Z (hd 0 categories)) half]
  ++ map (fun i => midpoint (nth (i - 1) categories 0) (nth i categories 0))
         (seq 1 (List.length categories - 1))
  ++ [Qplus (inject_Z (last categories 0)) half].

Section Bins.

(** [percentile_reps nonzero max_bins] stands for
    [np.percentile(nonzero, np.linspace(0, 100, max_bins)).round().astype(int)]. *)
Variable percentile_reps : list Z -> Z -> list Z.

Definition smart_count_bins (data_matrix : list (list Z)) (max_bins : Z)
  : list Z * list Q :=
  let vals := np_unique (List.concat data_matrix) in
  let nonzero := filter (fun v => 0 <? v) vals in
  match vals, nonzero with
  | [], _ => ([0], [Qopp half; half])
  | _, [] => ([0], [Qopp half; half])
  | _, _ =>
      let cats :=
        if len nonzero <=? max_bins then 0 :: nonzero
        else np_unique (0 :: np_unique (percentile_reps nonzero max_bins)) in
      let categories := sorted Z.leb cats in
      (categories, bin_bounds categories)
  end.

End Bins.

(** The indices from [i] on at which the month differs from that of the
    date before, each with its date; [prev] is the date before [ds]. *)
Fixpoint month_changes (i : Z) (prev : datetime) (ds : list datetime)
  : list (Z * datetime) :=
  match ds with
  | [] => []
  | d :: ds' =>
      (if month d =? month prev then [] else [(i, d)])
      ++ month_changes (i + 1) d ds'
  end.

(** Half below the first of the categories, then the midpoints of
    neighbours, then half above the last. *)
Fixpoint upper_bounds (c : Z) (cs : list Z) : list Q :=
  match cs with
  | [] => [Qplus (inject_Z c) half]
  | c' :: cs' => midpoint c c' :: upper_bounds c' cs'
  end.

(** The sum of the counts of a table row. *)
Definition row_total (r : row) : Z :=
  sumZ (map (fun kv => match snd kv with CInt n => n | CStr _ => 0 end) r).

(** [r] is the result of analysing some folders. *)
Definition analysed (r : site_result) : Prop :=
  exists p0 ps, analyze_merged_site (p0 :: ps) = Ok r.

(** The parser accepts the file name [f]. *)
Definition parses (f : string) : bool :=
  match parse_audiomoth_filename f with
  | Some _ => true
  | None => false
  end.


(** * Gap detection *)

Lemma flat_map_seq_shift {B : Type} (f : nat -> list B) (n s : nat) :
  flat_map f (seq (S s) n) = flat_map (fun i => f (S i)) (seq s n).
Proof.
  revert s; induction n as [|n IH]; intro s; simpl; [reflexivity|].
  now rewrite IH.
Qed.

Lemma minutes_test (tol secs : Z) :
  negb (Qle_bool (inject_Z secs / 60) (inject_Z tol)) = (60 * tol <? secs).
Proof.
  destruct (Qle_bool (inject_Z secs / 60) (inject_Z tol)) eqn:F;
    destruct (Z.ltb_spec (60 * tol) secs) as [E|E]; try reflexivity; exfalso.
  - apply Qle_bool_iff in F. unfold Qle in F. simpl in F. lia.
  - assert (G : (inject_Z secs / 60 <= inject_Z tol)%Q)
      by (unfold Qle; simpl; lia).
    apply Qle_bool_iff in G. congruence.
Qed.

Lemma find_gaps_cons (a b : datetime) (l : list datetime) (tol : Z) :
  find_gaps (a :: b :: l) tol =
  (if elapsed_exceeds tol (a, b) then [gap_of (a, b)] else [])
  ++ find_gaps (b :: l) tol.
Proof.
  unfold find_gaps.
  change (List.length (a :: b :: l) - 1)%nat with (S (List.length l)).
  change (List.length (b :: l) - 1)%nat with (List.length l - 0)%nat.
  rewrite Nat.sub_0_r.
  cbn [seq flat_map].
  rewrite flat_map_seq_shift.
  f_equal.
  cbn [nth]. rewrite minutes_test. reflexivity.
Qed.

Lemma find_gaps_pairs (ts : list datetime) (tol : Z) :
  find_gaps ts tol = map gap_of (filter (elapsed_exceeds tol) (adjacent_pairs ts)).
Proof.
  induction ts as [|a l IH]; [reflexivity|].
  destruct l as [|b l]; [reflexivity|].
  rewrite find_gaps_cons, IH.
  cbn [adjacent_pairs filter].
  destruct (elapsed_exceeds tol (a, b)); reflexivity.
Qed.

(** * Sorting *)

Section SortFacts.
Context {A : Type} (leb : A -> A -> bool).
Hypothesis leb_total : forall x y, leb x y = false -> leb y x = true.

Lemma insert_sorted_perm (x : A) (l : list A) :
  Permutation (x :: l) (insert_sorted leb x l).
Proof.
  induction l as [|y l IH]; simpl; [constructor; constructor|].
  destruct (leb x y); [apply Permutation_refl|].
  eapply perm_trans; [apply perm_swap|]. now constructor.
Qed.

Lemma sorted_perm (l : list A) : Permutation l (sorted leb l).
Proof.
  induction l as [|x l IH]; simpl; [constructor|].
  eapply perm_trans; [|apply insert_sorted_perm]. now constructor.
Qed.

Lemma sorted_length (l : list A) : List.length (sorted leb l) = List.length l.
Proof. symmetry. apply Permutation_length, sorted_perm. Qed.

Lemma insert_sorted_Sorted (x : A) (l : list A) :
  Sorted (fun x y => leb x y = true) l -> Sorted (fun x y => leb x y = true) (insert_sorted leb x l).
Proof.
  induction 1 as [|y l Hs IH Hhd]; simpl.
  - repeat constructor.
  - destruct (leb x y) eqn:E.
    + constructor; [now constructor|]. now constructor.
    + constructor; [exact IH|].
      destruct Hhd as [|z l Hyz]; simpl.
      * constructor. now apply leb_total.
      * destruct (leb x z); constructor; [now apply leb_total | exact Hyz].
Qed.

Lemma sorted_Sorted (l : list A) : Sorted (fun x y => leb x y = true) (sorted leb l).
Proof.
  induction l as [|x l IH]; simpl; [constructor|].
  now apply insert_sorted_Sorted.
Qed.

Lemma sorted_nil_inv (l : list A) : sorted leb l = [] -> l = [].
Proof.
  intro H. apply Permutation_nil. rewrite <- H. apply Permutation_sym, sorted_perm.
Qed.
End SortFacts.

(** * The order on datetimes *)

Ltac lex_bool :=
  unfold dt_le, dt_leb, date_leb, dt_fields, date_fields, lex_leb in *;
  repeat match goal with
         | H : _ = true |- _ =>
             rewrite ?orb_true_iff, ?andb_true_iff, ?Z.ltb_lt, ?Z.eqb_eq in H
         | H : _ = false |- _ =>
             rewrite ?orb_false_iff, ?andb_false_iff, ?Z.ltb_ge, ?Z.eqb_neq in H
         end;
  rewrite ?orb_true_iff, ?andb_true_iff, ?Z.ltb_lt, ?Z.eqb_eq.

Lemma dt_leb_total (a b : datetime) : dt_leb a b = false -> dt_leb b a = true.
Proof. intro H. lex_bool. lia. Qed.

Lemma dt_le_trans (a b c : datetime) : dt_le a b -> dt_le b c -> dt_le a c.
Proof. intros H1 H2. lex_bool. lia. Qed.

Lemma date_leb_total (a b : date) : date_leb a b = false -> date_leb b a = true.
Proof. intro H. lex_bool. lia. Qed.

(** * The calendar *)

Lemma days_before_year_succ (y : Z) :
  days_before_year (y + 1) =
  days_before_year y + (if is_leap y then 366 else 365).
Proof.
  unfold days_before_year, is_leap.
  replace (y + 1 - 1) with y by lia.
  destruct (Z.eqb_spec (y mod 4) 0) as [H4|H4];
    destruct (Z.eqb_spec (y mod 100) 0) as [H100|H100];
    destruct (Z.eqb_spec (y mod 400) 0) as [H400|H400]; simpl;
    Z.div_mod_to_equations; lia.
Qed.

Lemma days_before_year_mono (y1 y2 : Z) :
  y1 <= y2 -> days_before_year y1 <= days_before_year y2.
Proof.
  unfold days_before_year. intro H.
  Z.div_mod_to_equations. lia.
Qed.

Lemma month_cases (m : Z) : 1 <= m <= 12 -> In m (map Z.of_nat (seq 1 12)).
Proof. intro H. cbn. lia. Qed.

Ltac month_split m H :=
  apply month_cases in H; cbn in H;
  repeat (destruct H as [H|H]; [subst m|]); [..|contradiction].

Ltac calendar :=
  unfold days_before_month;
  repeat match goal with
         | |- context [Z.to_nat ?e] =>
             let v := eval vm_compute in (Z.to_nat e) in
             change (Z.to_nat e) with v
         end;
  cbn -[is_leap Z.add];
  repeat match goal with |- context [is_leap ?y] => destruct (is_leap y) end;
  lia.

Lemma days_in_month_pos (y m : Z) : 28 <= days_in_month y m <= 31.
Proof.
  unfold days_in_month.
  destruct (m =? 2); [destruct (is_leap y); lia|].
  destruct ((m =? 4) || (m =? 6) || (m =? 9) || (m =? 11)); lia.
Qed.

Lemma days_before_month_year (y m : Z) :
  1 <= m <= 12 ->
  0 <= days_before_month y m /\
  days_before_month y m + days_in_month y m <= (if is_leap y then 366 else 365).
Proof. intro H. month_split m H; calendar. Qed.

Lemma days_before_month_next (y m1 m2 : Z) :
  1 <= m1 -> m1 < m2 -> m2 <= 12 ->
  days_before_month y m1 + days_in_month y m1 <= days_before_month y m2.
Proof.
  intros H1 H12 H2.
  assert (Hm1 : 1 <= m1 <= 12) by lia.
  assert (Hm2 : 1 <= m2 <= 12) by lia.
  month_split m1 Hm1; month_split m2 Hm2; try lia; calendar.
Qed.

Lemma toordinal_mono (a b : date) :
  valid_date a -> valid_date b -> date_leb a b = true ->
  toordinal a <= toordinal b.
Proof.
  intros [Hma Hda] [Hmb Hdb] H. unfold toordinal.
  destruct a as [ya ma da], b as [yb mb db].
  unfold date_leb, date_fields, lex_leb in H. simpl in *.
  destruct (Z.lt_trichotomy ya yb) as [Hy|[Hy|Hy]]; [| |lia].
  - pose proof (days_before_year_mono (ya + 1) yb ltac:(lia)) as Hmono.
    rewrite days_before_year_succ in Hmono.
    pose proof (days_before_month_year ya ma Hma).
    pose proof (days_before_month_year yb mb Hmb).
    lia.
  - subst yb.
    destruct (Z.lt_trichotomy ma mb) as [Hm|[Hm|Hm]]; [| |lia].
    + pose proof (days_before_month_next ya ma mb ltac:(lia) Hm ltac:(lia)). lia.
    + subst mb. lia.
Qed.

Lemma valid_datetime_fields (t : datetime) :
  valid_datetime t = true ->
  1 <= year t <= 9999 /\ valid_date (date_of t) /\
  0 <= hour t <= 23 /\ 0 <= minute t <= 59 /\ 0 <= second t <= 59.
Proof.
  unfold valid_datetime, between, valid_date. simpl.
  rewrite !andb_true_iff, !Z.leb_le. lia.
Qed.

Lemma elapsed_nonneg (a b : datetime) :
  valid_datetime a = true -> valid_datetime b = true -> dt_le a b ->
  0 <= total_seconds_between b a.
Proof.
  intros Ha Hb H.
  apply valid_datetime_fields in Ha, Hb.
  destruct Ha as (_ & Hda & Hha & Hma & Hsa), Hb as (_ & Hdb & Hhb & Hmb & Hsb).
  unfold total_seconds_between.
  assert (Hdate : date_leb (date_of a) (date_of b) = true).
  { lex_bool. simpl. lia. }
  pose proof (toordinal_mono _ _ Hda Hdb Hdate) as Hord.
  destruct (Z.eq_dec (toordinal (date_of a)) (toordinal (date_of b))) as [E|E].
  - rewrite E.
    assert (year a = year b /\ month a = month b /\ day a = day b) as (Ey & Em & Ed).
    { destruct (Z.eq_dec (year a) (year b)) as [Ey|Ny].
      - destruct (Z.eq_dec (month a) (month b)) as [Em|Nm].
        + unfold toordinal in E. simpl in E. rewrite Ey, Em in E. lia.
        + exfalso. unfold toordinal in E. simpl in E. rewrite Ey in E.
          unfold valid_date in *. simpl in *.
          assert (Hlt : month a < month b) by (lex_bool; lia).
          pose proof (days_before_month_next (year b) (month a) (month b)
                        ltac:(lia) Hlt ltac:(lia)).
          rewrite Ey in *. lia.
      - exfalso.
        assert (Hlt : year a < year b) by (lex_bool; lia).
        pose proof (days_before_year_mono (year a + 1) (year b) ltac:(lia)) as Hm.
        rewrite days_before_year_succ in Hm.
        unfold valid_date in *. simpl in *.
        pose proof (days_before_month_year (year a) (month a) ltac:(lia)).
        pose proof (days_before_month_year (year b) (month b) ltac:(lia)).
        unfold toordinal in E. simpl in E. lia. }
    lex_bool. lia.
  - lia.
Qed.

(** * Scanning the folders of a site *)

Lemma len_app {A : Type} (l1 l2 : list A) : len (l1 ++ l2) = len l1 + len l2.
Proof. unfold len. rewrite length_app. lia. Qed.

Lemma len_nonneg {A : Type} (l : list A) : 0 <= len l.
Proof. unfold len. lia. Qed.

Lemma scan_files_spec (wav_files : list string) (ts : list datetime) (inv : Z) :
  scan_files wav_files (ts, inv) =
  (ts ++ parsed wav_files, inv + (len wav_files - len (parsed wav_files))).
Proof.
  unfold scan_files.
  revert ts inv; induction wav_files as [|f l IH]; intros ts inv.
  - cbn. rewrite app_nil_r. f_equal. lia.
  - cbn [fold_left]. unfold parsed at 1 2. cbn [flat_map]. fold (parsed l).
    destruct (parse_audiomoth_filename f) as [t|].
    + rewrite IH. rewrite <- app_assoc. f_equal.
      rewrite len_app. unfold len. cbn [List.length app]. lia.
    + rewrite IH. cbn [app]. f_equal. unfold len. cbn [List.length]. lia.
Qed.

Lemma scan_site_spec (site_paths : list Path) :
  scan_site site_paths =
  (site_events site_paths, len (site_files site_paths),
   len (site_files site_paths) - len (site_events site_paths)).
Proof.
  unfold scan_site, site_events, site_files.
  generalize (sorted path_leb site_paths) as l; intro l.
  enough (G : forall ts total inv,
             fold_left
               (fun '(all_timestamps, total_files, invalid) site_path =>
                  let wav_files := glob site_path ".WAV" ++ glob site_path ".wav" in
                  let '(all_timestamps', invalid') :=
                    scan_files wav_files (all_timestamps, invalid) in
                  (all_timestamps', total_files + len wav_files, invalid'))
               l (ts, total, inv) =
             (ts ++ flat_map folder_events l,
              total + len (flat_map folder_files l),
              inv + (len (flat_map folder_files l) - len (flat_map folder_events l)))).
  { rewrite G. cbn [app]. f_equal. }
  induction l as [|p l IH]; intros ts total inv.
  - cbn. rewrite app_nil_r. f_equal; [f_equal|]; lia.
  - cbn [fold_left flat_map]. cbv zeta. rewrite scan_files_spec.
    fold (folder_files p). fold (folder_events p).
    rewrite IH. rewrite <- app_assoc, !len_app.
    f_equal; [f_equal|]; lia.
Qed.

Lemma parse_valid (f : string) (t : datetime) :
  parse_audiomoth_filename f = Some t ->
  valid_datetime t = true /\ min_valid_year <= year t.
Proof.
  unfold parse_audiomoth_filename, strptime.
  destruct (re_matches _) as [|[t' [|c rest]] l]; try discriminate.
  destruct (valid_datetime t') eqn:V; try discriminate.
  destruct (Z.ltb_spec (year t') min_valid_year); try discriminate.
  intros [= <-]. split; [exact V | assumption].
Qed.

Lemma parsed_valid (files : list string) (t : datetime) :
  In t (parsed files) -> valid_datetime t = true /\ min_valid_year <= year t.
Proof.
  unfold parsed. rewrite in_flat_map. intros (f & _ & Hin).
  destruct (parse_audiomoth_filename f) eqn:E; [|contradiction].
  destruct Hin as [<-|[]]. now apply parse_valid in E.
Qed.

Lemma site_events_valid (site_paths : list Path) (t : datetime) :
  In t (site_events site_paths) -> valid_datetime t = true /\ min_valid_year <= year t.
Proof.
  unfold site_events. rewrite in_flat_map. intros (p & _ & Hin).
  now apply parsed_valid in Hin.
Qed.

(** * Daily counts *)

Lemma dict_incr_values (d : date) (m : list (date * Z)) :
  Forall (fun kv => 1 <= snd kv) m ->
  Forall (fun kv => 1 <= snd kv) (dict_incr d m).
Proof.
  induction 1 as [|[k v] m Hv Hm IH]; cbn.
  - repeat constructor. cbn. lia.
  - destruct (date_eqb k d); constructor; cbn in *; auto; lia.
Qed.

Lemma dict_incr_sum (d : date) (m : list (date * Z)) :
  sumZ (map snd (dict_incr d m)) = sumZ (map snd m) + 1.
Proof.
  induction m as [|[k v] m IH]; [reflexivity|].
  cbn [dict_incr]. destruct (date_eqb k d); cbn [map sumZ fold_right snd].
  - lia.
  - fold (sumZ (map snd (dict_incr d m))). rewrite IH.
    fold (sumZ (map snd m)). lia.
Qed.

Lemma dict_incr_nonempty (d : date) (m : list (date * Z)) : dict_incr d m <> [].
Proof. destruct m as [|[k v] m]; cbn; [|destruct (date_eqb k d)]; discriminate. Qed.

Lemma count_daily_from (ts : list datetime) (m : list (date * Z)) :
  Forall (fun kv => 1 <= snd kv) m ->
  let m' := fold_left (fun c t => dict_incr (date_of t) c) ts m in
  Forall (fun kv => 1 <= snd kv) m' /\
  sumZ (map snd m') = sumZ (map snd m) + len ts /\
  (ts <> [] -> m' <> []).
Proof.
  revert m; induction ts as [|t ts IH]; intros m Hm; cbv zeta; cbn [fold_left].
  - repeat split; auto. cbn; lia.
  - destruct (IH (dict_incr (date_of t) m) (dict_incr_values _ _ Hm)) as (H1 & H2 & H3).
    repeat split; auto.
    + rewrite H2, dict_incr_sum. unfold len. cbn [List.length]. lia.
    + intros _. destruct ts as [|t' ts']; [apply dict_incr_nonempty|].
      apply H3. discriminate.
Qed.

Lemma count_daily_values (ts : list datetime) :
  Forall (fun kv => 1 <= snd kv) (count_daily ts).
Proof. apply (count_daily_from ts []). constructor. Qed.

Lemma count_daily_sum (ts : list datetime) :
  sumZ (map snd (count_daily ts)) = len ts.
Proof. apply (count_daily_from ts []). constructor. Qed.

Lemma count_daily_nonempty (ts : list datetime) : ts <> [] -> count_daily ts <> [].
Proof. apply (count_daily_from ts []). constructor. Qed.

Lemma sumZ_cons (x : Z) (l : list Z) : sumZ (x :: l) = x + sumZ l.
Proof. reflexivity. Qed.

(** * The median *)

Lemma nth_sorted_In (l : list Q) (k : nat) :
  (k < List.length l)%nat -> In (nth k (sorted Qle_bool l) 0%Q) l.
Proof.
  intro H. eapply Permutation_in.
  - apply Permutation_sym, (sorted_perm Qle_bool).
  - apply nth_In. now rewrite sorted_length.
Qed.

Lemma np_median_closed (P : Q -> Prop) (l : list Q) :
  (forall a b, P a -> P b -> P ((a + b) / 2)%Q) ->
  l <> [] ->
  (forall x, In x l -> P x) ->
  exists m, np_median l = Fin m /\ P m.
Proof.
  intros Hmid Hne Hb. unfold np_median.
  rewrite (sorted_length Qle_bool).
  assert (Hlen : (0 < List.length l)%nat) by (destruct l; [congruence | cbn; lia]).
  destruct (List.length l) as [|n] eqn:En; [lia|].
  set (N := S n) in *.
  assert (Hhalf : (Nat.div N 2 < List.length l)%nat).
  { rewrite En. apply Nat.div_lt; lia. }
  destruct (Nat.even N) eqn:Ev.
  - assert (Hprev : (Nat.div N 2 - 1 < List.length l)%nat) by lia.
    eexists; split; [reflexivity|].
    apply Hmid; apply Hb, nth_sorted_In; assumption.
  - eexists; split; [reflexivity|].
    apply Hb, nth_sorted_In, Hhalf.
Qed.

Lemma np_median_ge (l : list Q) (lo : Q) :
  l <> [] -> (forall x, In x l -> (lo <= x)%Q) ->
  exists m, np_median l = Fin m /\ (lo <= m)%Q.
Proof.
  apply (np_median_closed (fun x => (lo <= x)%Q)).
  intros a b Ha Hb. apply Qle_shift_div_l; [reflexivity | lra].
Qed.

Lemma np_median_bounds (l : list Q) (lo hi : Q) :
  l <> [] -> (forall x, In x l -> (lo <= x <= hi)%Q) ->
  exists m, np_median l = Fin m /\ (lo <= m <= hi)%Q.
Proof.
  apply (np_median_closed (fun x => (lo <= x <= hi)%Q)).
  intros a b [? ?] [? ?]. split.
  - apply Qle_shift_div_l; [reflexivity | lra].
  - apply Qle_shift_div_r; [reflexivity | lra].
Qed.

(** * The shape of a site result *)

Lemma last_cons_default {A : Type} (x : A) (l : list A) (d d' : A) :
  last (x :: l) d = last (x :: l) d'.
Proof.
  revert x; induction l as [|y l IH]; intro x; [reflexivity|].
  change (last (y :: l) d = last (y :: l) d'). apply IH.
Qed.

Lemma analyze_merged_site_empty (p0 : Path) (ps : list Path) :
  site_events (p0 :: ps) = [] ->
  analyze_merged_site (p0 :: ps) =
  Ok {| site := base_name_of (name p0);
        deployment_folders := map name (p0 :: ps);
        n_folders := len (p0 :: ps);
        n_files := len (site_files (p0 :: ps));
        invalid_files := len (site_files (p0 :: ps)) - 0;
        first_recording := None;
        last_recording := None;
        duration_days := 0;
        actual_recordings := 0;
        expected_recordings := None;
        completeness_pct := None;
        median_daily_recordings := None;
        timestamps := [];
        gaps := [];
        daily_counts := [] |}.
Proof.
  intro E. unfold analyze_merged_site.
  rewrite scan_site_spec, E. reflexivity.
Qed.

Lemma analyze_merged_site_events (p0 : Path) (ps : list Path) :
  site_events (p0 :: ps) <> [] ->
  exists first_rec rest m,
    let ts := sorted dt_leb (site_events (p0 :: ps)) in
    let last_rec := last ts first_rec in
    let duration := elapsed_days first_rec last_rec in
    ts = first_rec :: rest /\
    np_median (map (fun kv => inject_Z (snd kv)) (count_daily ts)) = Fin m /\
    (1 <= m)%Q /\
    analyze_merged_site (p0 :: ps) =
    Ok {| site := base_name_of (name p0);
          deployment_folders := map name (p0 :: ps);
          n_folders := len (p0 :: ps);
          n_files := len (site_files (p0 :: ps));
          invalid_files := len (site_files (p0 :: ps)) - len (site_events (p0 :: ps));
          first_recording := Some first_rec;
          last_recording := Some last_rec;
          duration_days := duration;
          actual_recordings := len ts;
          expected_recordings := Some (trunc (m * duration));
          completeness_pct :=
            Some (completeness_of (len ts) (trunc (m * duration)));
          median_daily_recordings := Some (Fin m);
          timestamps := ts;
          gaps := find_gaps ts 10;
          daily_counts := count_daily ts |}.
Proof.
  intro Hne.
  destruct (site_events (p0 :: ps)) as [|t0 u] eqn:Ev; [congruence|].
  destruct (sorted dt_leb (t0 :: u)) as [|first_rec rest] eqn:Es.
  { apply sorted_nil_inv in Es. discriminate. }
  assert (Hts : first_rec :: rest <> []) by discriminate.
  pose proof (count_daily_nonempty _ Hts) as Hc.
  pose proof (count_daily_values (first_rec :: rest)) as Hv.
  destruct (np_median_ge
              (map (fun kv => inject_Z (snd kv)) (count_daily (first_rec :: rest))) 1)
    as (m & Hm & Hm1).
  { destruct (count_daily (first_rec :: rest)); [congruence|discriminate]. }
  { intros x Hx. apply in_map_iff in Hx. destruct Hx as ([k v] & <- & Hin).
    pose proof (proj1 (Forall_forall _ _) Hv _ Hin) as Hkv. cbn [snd] in *.
    change 1%Q with (inject_Z 1). now rewrite <- Zle_Qle. }
  exists first_rec, rest, m. cbv zeta.
  split; [reflexivity|]. split; [exact Hm|]. split; [exact Hm1|].
  unfold analyze_merged_site.
  rewrite scan_site_spec, Ev, Es.
  cbn [hd]. rewrite (last_cons_default first_rec rest t0 first_rec).
  destruct (count_daily (first_rec :: rest)) as [|kv c] eqn:Ec; [congruence|].
  rewrite Hm.
  assert (Hpos : fpos (Fin m) = true).
  { cbn. destruct (Qle_bool m 0) eqn:Q0; [|reflexivity].
    apply Qle_bool_iff in Q0. lra. }
  rewrite Hpos. cbn [fmul py_int bind].
  unfold completeness_of, elapsed_days, truediv.
  set (e := trunc _).
  destruct (Z.ltb_spec 0 e) as [He|He].
  - destruct (Z.eqb_spec e 0) as [E0|E0]; [lia|]. reflexivity.
  - reflexivity.
Qed.

(** * Elapsed time over a sorted sequence *)

Lemma last_cons_In {A : Type} (x d : A) (l : list A) : In (last (x :: l) d) (x :: l).
Proof.
  revert x; induction l as [|y l IH]; intro x; [now left|].
  right. change (last (x :: y :: l) d) with (last (y :: l) d). apply IH.
Qed.

Lemma dt_le_refl (a : datetime) : dt_le a a.
Proof. unfold dt_le, dt_leb, dt_fields, lex_leb. lia. Qed.

Lemma strongly_sorted_last (x : datetime) (l : list datetime) (t : datetime) :
  StronglySorted dt_le (x :: l) -> In t (x :: l) -> dt_le t (last (x :: l) x).
Proof.
  revert x; induction l as [|y l IH]; intros x Hs Ht.
  - destruct Ht as [<-|[]]. apply dt_le_refl.
  - change (last (x :: y :: l) x) with (last (y :: l) x).
    rewrite (last_cons_default y l x y).
    inversion Hs as [|? ? Hs' Hall]; subst.
    destruct Ht as [<-|Ht].
    + rewrite Forall_forall in Hall. apply Hall, last_cons_In.
    + now apply IH.
Qed.

Lemma sorted_first_last (l : list datetime) (first_rec : datetime) (rest : list datetime) :
  sorted dt_leb l = first_rec :: rest ->
  let last_rec := last (first_rec :: rest) first_rec in
  In first_rec l /\ In last_rec l /\
  forall t, In t l -> dt_le first_rec t /\ dt_le t last_rec.
Proof.
  intros Es last_rec.
  pose proof (sorted_perm dt_leb l) as Hp. rewrite Es in Hp.
  pose proof (sorted_Sorted dt_leb dt_leb_total l) as Hs. rewrite Es in Hs.
  apply Sorted_StronglySorted in Hs; [|exact dt_le_trans].
  split; [eapply Permutation_in; [apply Permutation_sym, Hp | now left]|].
  split; [eapply Permutation_in; [apply Permutation_sym, Hp | apply last_cons_In]|].
  intros t Ht. apply (Permutation_in _ Hp) in Ht.
  split.
  - inversion Hs as [|? ? _ Hall]; subst.
    destruct Ht as [<-|Ht]; [apply dt_le_refl|].
    rewrite Forall_forall in Hall. now apply Hall.
  - now apply strongly_sorted_last.
Qed.

Lemma trunc_nonneg (q : Q) : (0 <= q)%Q -> trunc q = Qfloor q /\ 0 <= Qfloor q.
Proof.
  intro H. unfold trunc.
  assert (E : Qle_bool 0 q = true) by now apply Qle_bool_iff.
  rewrite E. split; [reflexivity|].
  change 0 with (Qfloor 0). now apply Qfloor_resp_le.
Qed.


Lemma elapsed_days_nonneg (a b : datetime) :
  0 <= total_seconds_between b a -> (0 <= elapsed_days a b)%Q.
Proof.
  intro H. unfold elapsed_days.
  apply Qle_shift_div_l; [reflexivity|].
  rewrite Qmult_0_l. change 0%Q with (inject_Z 0). now rewrite <- Zle_Qle.
Qed.

(** * Gaps in chronological order *)

Lemma adjacent_pairs_cons {A : Type} (a b : A) (l : list A) :
  adjacent_pairs (a :: b :: l) = (a, b) :: adjacent_pairs (b :: l).
Proof. reflexivity. Qed.

Lemma adjacent_fst_In {A : Type} (P : A * A -> bool) (l : list A) (x : A) :
  In x (map fst (filter P (adjacent_pairs l))) -> In x l.
Proof.
  induction l as [|a l IH]; [contradiction|].
  destruct l as [|b l]; [contradiction|].
  cbn [adjacent_pairs filter].
  destruct (P (a, b)); cbn [map In fst]; intros H.
  - destruct H as [<-|H]; [now left | right; now apply IH].
  - right; now apply IH.
Qed.

Lemma adjacent_fst_sorted (P : datetime * datetime -> bool) (l : list datetime) :
  StronglySorted dt_le l ->
  StronglySorted dt_le (map fst (filter P (adjacent_pairs l))).
Proof.
  induction 1 as [|a l Hs IH Hall]; [constructor|].
  destruct l as [|b l]; [constructor|].
  rewrite adjacent_pairs_cons. cbn [filter].
  destruct (P (a, b)); cbn [map fst]; [|exact IH].
  constructor; [exact IH|].
  rewrite Forall_forall in *. intros x Hx. apply Hall.
  now apply adjacent_fst_In in Hx.
Qed.

Lemma gap_start_of (l : list (datetime * datetime)) :
  map gap_start (map gap_of l) = map fst l.
Proof. rewrite map_map. reflexivity. Qed.

(** C3. For a chronologically sorted sequence and a tolerance in minutes,
    [find_gaps] returns, in order, the gap (start, end, elapsed hours) of
    exactly those neighbouring pairs whose elapsed time is more than the
    tolerance; their number is the number of such pairs, the gaps are in
    chronological order, and a sequence of no or one event has no gap. *)
Theorem find_gaps_one_per_exceeding_pair (ts : list datetime) (tol : Z) :
  Sorted dt_le ts ->
  find_gaps ts tol = map gap_of (filter (elapsed_exceeds tol) (adjacent_pairs ts))
  /\ len (find_gaps ts tol) = len (filter (elapsed_exceeds tol) (adjacent_pairs ts))
  /\ StronglySorted dt_le (map gap_start (find_gaps ts tol))
  /\ find_gaps [] tol = []
  /\ forall t, find_gaps [t] tol = [].
Proof.
  intro Hs.
  split; [apply find_gaps_pairs|].
  split; [rewrite find_gaps_pairs; unfold len; now rewrite length_map|].
  split; [|split; [reflexivity | intro t; reflexivity]].
  rewrite find_gaps_pairs, gap_start_of.
  apply adjacent_fst_sorted, Sorted_StronglySorted; [exact dt_le_trans | exact Hs].
Qed.

Lemma find_gaps_one_per_exceeding_pair_witness :
  let t1 := mkdt 2025 6 1 6 0 0 in
  let t2 := mkdt 2025 6 1 6 5 0 in
  let t3 := mkdt 2025 6 1 6 30 0 in
  Sorted dt_le [t1; t2; t3] /\
  find_gaps [t1; t2; t3] 10 = [gap_of (t2, t3)].
Proof.
  cbv zeta. split.
  - repeat constructor.
  - rewrite (proj1 (find_gaps_one_per_exceeding_pair
                      [mkdt 2025 6 1 6 0 0; mkdt 2025 6 1 6 5 0; mkdt 2025 6 1 6 30 0]
                      10 ltac:(repeat constructor))).
    reflexivity.
Defined.

(** * Per-site results *)

(** C9. Every scanned audio file of a site is counted once, as a valid
    recording or as an invalid file: the result of the per-site analysis,
    empty or not, has [n_files = actual_recordings + invalid_files]. *)
Theorem scanned_files_valid_or_invalid (p0 : Path) (ps : list Path) :
  exists r,
    analyze_merged_site (p0 :: ps) = Ok r /\
    n_files r = len (site_files (p0 :: ps)) /\
    n_files r = actual_recordings r + invalid_files r.
Proof.
  destruct (site_events (p0 :: ps)) as [|t0 u] eqn:Ev.
  - eexists. split; [apply (analyze_merged_site_empty p0 ps Ev)|].
    cbn [n_files actual_recordings invalid_files]. split; [reflexivity | lia].
  - destruct (analyze_merged_site_events p0 ps) as (f & rest & m & _ & _ & _ & Hr).
    { rewrite Ev; discriminate. }
    eexists. split; [exact Hr|].
    cbn [n_files actual_recordings invalid_files]. split; [reflexivity|].
    unfold len at 2 4. rewrite (sorted_length dt_leb). lia.
Qed.

(** C10. The completeness percentage is not bounded by 100: for a site
    with one event at midnight on each of two consecutive days the
    baseline is 1, the event count is 2 and the percentage is 200. *)
Theorem completeness_can_exceed_100 :
  exists site_paths r e pct,
    analyze_merged_site site_paths = Ok r /\
    expected_recordings r = Some e /\ 0 < e /\ e < actual_recordings r /\
    completeness_pct r = Some pct /\ (100 < pct)%Q.
Proof.
  exists [mkPath "A1" ["20250601_000000.WAV"; "20250602_000000.WAV"]]%string.
  eexists. exists 1, (inject_Z 2 / inject_Z 1 * 100)%Q.
  split; [vm_compute; reflexivity|].
  repeat split.
Qed.


Lemma completeness_of_pos (actual expected : Z) :
  0 < actual -> (0 < completeness_of actual expected)%Q.
Proof.
  intro Ha. unfold completeness_of.
  destruct (Z.ltb_spec 0 expected) as [He|He]; [|reflexivity].
  apply Qmult_lt_0_compat; [|reflexivity].
  apply Qlt_shift_div_l.
  - change 0%Q with (inject_Z 0). now rewrite <- Zlt_Qlt.
  - rewrite Qmult_0_l. change 0%Q with (inject_Z 0). now rewrite <- Zlt_Qlt.
Qed.







(** * The timestamp parser *)

Lemma digit_cases (n : Z) : 0 <= n <= 9 -> In n (map Z.of_nat (seq 0 10)).
Proof. intro H. cbn. lia. Qed.

Lemma digit_val_char (n : Z) : 0 <= n <= 9 -> digit_val (digit_char n) = Some n.
Proof.
  intro H. apply digit_cases in H. cbn in H.
  repeat (destruct H as [<-|H]); try reflexivity; contradiction.
Qed.

Lemma digit_char_not_dot (n : Z) : 0 <= n <= 9 -> Ascii.eqb (digit_char n) "." = false.
Proof.
  intro H. apply digit_cases in H. cbn in H.
  repeat (destruct H as [<-|H]); try reflexivity; contradiction.
Qed.

Lemma two_digit_parts (n : Z) :
  0 <= n <= 99 -> 0 <= n / 10 <= 9 /\ 0 <= n mod 10 <= 9 /\ 10 * (n / 10) + n mod 10 = n.
Proof. intro H. Z.div_mod_to_equations. lia. Qed.

Lemma re_two_digits (p : Z -> Z -> bool) (n : Z) (r : string) :
  0 <= n <= 99 ->
  re_two p (two_digits n r) = if p (n / 10) (n mod 10) then [(n, r)] else [].
Proof.
  intro H. destruct (two_digit_parts n H) as (Hq & Hr & E).
  unfold re_two, two_digits.
  rewrite (digit_val_char _ Hq), (digit_val_char _ Hr), E. reflexivity.
Qed.

Lemma re_Y_four (y : Z) (r : string) :
  0 <= y <= 9999 -> re_Y (four_digits y r) = [(y, r)].
Proof.
  intro H. unfold re_Y, four_digits.
  assert (H1 : 0 <= y / 100 <= 99) by (Z.div_mod_to_equations; lia).
  assert (H2 : 0 <= y mod 100 <= 99) by (Z.div_mod_to_equations; lia).
  rewrite (re_two_digits _ _ _ H1). cbn [flat_map].
  rewrite (re_two_digits _ _ _ H2). cbn [map app].
  do 2 f_equal. Z.div_mod_to_equations. lia.
Qed.

Ltac field_head H :=
  rewrite !(re_two_digits _ _ _ H);
  repeat match goal with
         | |- context [if ?b then _ else _] =>
             let E := fresh "E" in
             destruct b eqn:E; [eexists; cbn [app]; reflexivity|]
         end;
  exfalso; Z.div_mod_to_equations; lia.

Lemma re_m_head (m : Z) (r : string) :
  1 <= m <= 12 -> exists l, re_m (two_digits m r) = (m, r) :: l.
Proof.
  intro H. assert (H' : 0 <= m <= 99) by lia. unfold re_m. field_head H'.
Qed.

Lemma re_d_head (d : Z) (r : string) :
  1 <= d <= 31 -> exists l, re_d (two_digits d r) = (d, r) :: l.
Proof.
  intro H. assert (H' : 0 <= d <= 99) by lia. unfold re_d, between. field_head H'.
Qed.

Lemma re_H_head (h : Z) (r : string) :
  0 <= h <= 23 -> exists l, re_H (two_digits h r) = (h, r) :: l.
Proof.
  intro H. assert (H' : 0 <= h <= 99) by lia. unfold re_H. field_head H'.
Qed.

Lemma re_M_head (m : Z) (r : string) :
  0 <= m <= 59 -> exists l, re_M (two_digits m r) = (m, r) :: l.
Proof.
  intro H. assert (H' : 0 <= m <= 99) by lia. unfold re_M. field_head H'.
Qed.

Lemma re_S_head (s : Z) (r : string) :
  0 <= s <= 59 -> exists l, re_S (two_digits s r) = (s, r) :: l.
Proof.
  intro H. assert (H' : 0 <= s <= 99) by lia. unfold re_S. field_head H'.
Qed.

Lemma re_matches_name (t : datetime) :
  valid_datetime t = true ->
  exists l, re_matches (audiomoth_name t) = (t, EmptyString) :: l.
Proof.
  intro V. apply valid_datetime_fields in V.
  destruct V as (Hy & [Hm Hd] & Hh & Hmi & Hs).
  destruct t as [Y m d h mi s]; cbn [year month day hour minute second
                                     date_of dyear dmonth dday] in *.
  pose proof (days_in_month_pos Y m) as Hdim.
  unfold re_matches, audiomoth_name;
    cbn [year month day hour minute second].
  rewrite re_Y_four by lia. cbn [flat_map]. rewrite app_nil_r.
  match goal with |- context [re_m (two_digits m ?r)] =>
    destruct (re_m_head m r Hm) as [l1 ->] end.
  cbn [flat_map].
  match goal with |- context [re_d (two_digits d ?r)] =>
    destruct (re_d_head d r ltac:(lia)) as [l2 ->] end.
  cbn [flat_map re_lit]. rewrite Ascii.eqb_refl. cbn [flat_map]. rewrite app_nil_r.
  match goal with |- context [re_H (two_digits h ?r)] =>
    destruct (re_H_head h r Hh) as [l3 ->] end.
  cbn [flat_map].
  match goal with |- context [re_M (two_digits mi ?r)] =>
    destruct (re_M_head mi r Hmi) as [l4 ->] end.
  cbn [flat_map].
  destruct (re_S_head s EmptyString Hs) as [l5 ->].
  cbn [map app]. eexists. reflexivity.
Qed.

Lemma strptime_name (t : datetime) :
  valid_datetime t = true -> strptime (audiomoth_name t) = Ok t.
Proof.
  intro V. unfold strptime.
  destruct (re_matches_name t V) as [l ->]. now rewrite V.
Qed.

(** Removing an extension from a text that starts with a dot-free part. *)
Lemma str_remove_no_dot (old' s tail : string) :
  no_dot s = true ->
  str_remove (String "." old') (s ++ tail)
  = (s ++ str_remove (String "." old') tail)%string.
Proof.
  unfold str_remove, no_dot.
  induction s as [|c s IH]; intro H; [reflexivity|].
  cbn [str_contains] in H. rewrite negb_orb, andb_true_iff in H.
  destruct H as [Hc Hs].
  cbn [String.append str_remove_from String.prefix].
  destruct (ascii_dec "." c) as [E|_].
  - subst c. discriminate.
  - now rewrite IH.
Qed.

Lemma two_digits_no_dot (n : Z) (r : string) :
  0 <= n <= 99 -> no_dot r = true -> no_dot (two_digits n r) = true.
Proof.
  intros H Hr. destruct (two_digit_parts n H) as (Hq & Hm & _).
  unfold no_dot, two_digits in *. cbn [str_contains].
  rewrite (digit_char_not_dot _ Hq), (digit_char_not_dot _ Hm). exact Hr.
Qed.

Lemma audiomoth_name_no_dot (t : datetime) :
  valid_datetime t = true -> no_dot (audiomoth_name t) = true.
Proof.
  intro V. apply valid_datetime_fields in V.
  destruct V as (Hy & [Hm Hd] & Hh & Hmi & Hs).
  pose proof (days_in_month_pos (year t) (month t)) as Hdim.
  cbn [date_of dyear dmonth dday] in *.
  unfold audiomoth_name, four_digits.
  repeat (apply two_digits_no_dot;
          [try lia; Z.div_mod_to_equations; lia|]).
  change (no_dot (String "_" ?s)) with (no_dot s).
  repeat (apply two_digits_no_dot; [lia|]).
  reflexivity.
Qed.

Lemma append_empty (s : string) : (s ++ EmptyString)%string = s.
Proof. induction s as [|c s IH]; [reflexivity|]. cbn. now rewrite IH. Qed.




(** * Merging deployment folders *)

Lemma first_keys_snoc (l : list Path) (d : Path) :
  first_keys (l ++ [d]) =
  if existsb (String.eqb (base_name_of (name d))) (first_keys l)
  then first_keys l
  else first_keys l ++ [base_name_of (name d)].
Proof. unfold first_keys. now rewrite fold_left_app. Qed.

Lemma existsb_eqb_In (k : string) (ks : list string) :
  existsb (String.eqb k) ks = true <-> In k ks.
Proof.
  rewrite existsb_exists. split.
  - intros (x & Hin & E). apply String.eqb_eq in E. now subst.
  - intro H. exists k. split; [exact H | apply String.eqb_refl].
Qed.

Lemma first_keys_NoDup (l : list Path) : NoDup (first_keys l).
Proof.
  induction l as [|d l IH] using rev_ind; [constructor|].
  rewrite first_keys_snoc.
  destruct (existsb _ _) eqn:E; [exact IH|].
  apply NoDup_app; [exact IH | repeat constructor; intros [] |].
  intros k Hk [<-|[]]. apply existsb_eqb_In in Hk. congruence.
Qed.

Lemma first_keys_In (l : list Path) (k : string) :
  In k (first_keys l) <-> exists d, In d l /\ base_name_of (name d) = k.
Proof.
  induction l as [|d l IH] using rev_ind.
  - split; [intros [] | intros (d & [] & _)].
  - rewrite first_keys_snoc.
    destruct (existsb _ _) eqn:E.
    + rewrite IH. split.
      * intros (x & Hx & Ek). exists x. split; [apply in_or_app; now left | exact Ek].
      * intros (x & Hx & Ek). apply in_app_or in Hx. destruct Hx as [Hx|[<-|[]]].
        -- now exists x.
        -- apply IH. rewrite <- Ek. now apply existsb_eqb_In.
    + rewrite in_app_iff, IH. split.
      * intros [(x & Hx & Ek) | [<-|[]]].
        -- exists x. split; [apply in_or_app; now left | exact Ek].
        -- exists d. split; [apply in_or_app; right; now left | reflexivity].
      * intros (x & Hx & Ek). apply in_app_or in Hx. destruct Hx as [Hx|[<-|[]]].
        -- left. now exists x.
        -- right. now left.
Qed.

Lemma dict_append_map_in (G : string -> list Path) (k : string) (v : Path)
      (ks : list string) :
  NoDup ks -> In k ks ->
  dict_append k v (map (fun k' => (k', G k')) ks) =
  map (fun k' => (k', G k' ++ (if String.eqb k k' then [v] else []))) ks.
Proof.
  induction 1 as [|k0 ks Hnotin Hnd IH]; [contradiction|].
  intro Hin. cbn [map dict_append].
  destruct (String.eqb_spec k0 k) as [->|Hne].
  - rewrite String.eqb_refl. f_equal.
    apply map_ext_in. intros k' Hk'.
    destruct (String.eqb_spec k k') as [->|_]; [contradiction|].
    now rewrite app_nil_r.
  - destruct Hin as [->|Hin]; [congruence|].
    destruct (String.eqb_spec k k0) as [->|_]; [congruence|].
    rewrite app_nil_r, IH by exact Hin. reflexivity.
Qed.

Lemma dict_append_map_notin (G : string -> list Path) (k : string) (v : Path)
      (ks : list string) :
  ~ In k ks ->
  dict_append k v (map (fun k' => (k', G k')) ks) =
  map (fun k' => (k', G k')) ks ++ [(k, [v])].
Proof.
  induction ks as [|k0 ks IH]; intro Hnotin; [reflexivity|].
  cbn [map dict_append app].
  destruct (String.eqb_spec k0 k) as [->|Hne]; [exfalso; apply Hnotin; now left|].
  rewrite IH; [reflexivity|]. intro H. apply Hnotin. now right.
Qed.

Lemma group_of_snoc (k : string) (l : list Path) (d : Path) :
  group_of k (l ++ [d]) =
  group_of k l ++ (if String.eqb (base_name_of (name d)) k then [d] else []).
Proof. unfold group_of. rewrite filter_app. reflexivity. Qed.

Lemma merge_snoc (l : list Path) (d : Path) :
  merge_continuous_deployments (l ++ [d]) =
  dict_append (base_name_of (name d)) d (merge_continuous_deployments l).
Proof. unfold merge_continuous_deployments. now rewrite fold_left_app. Qed.

Lemma merge_groups (site_dirs : list Path) :
  merge_continuous_deployments site_dirs =
  map (fun k => (k, group_of k site_dirs)) (first_keys site_dirs).
Proof.
  induction site_dirs as [|d l IH] using rev_ind; [reflexivity|].
  rewrite merge_snoc, IH, first_keys_snoc.
  set (k := base_name_of (name d)).
  destruct (existsb (String.eqb k) (first_keys l)) eqn:E.
  - apply existsb_eqb_In in E.
    rewrite dict_append_map_in by (auto using first_keys_NoDup).
    apply map_ext. intro k'. now rewrite group_of_snoc.
  - assert (Hnotin : ~ In k (first_keys l)).
    { intro H. apply existsb_eqb_In in H. congruence. }
    rewrite dict_append_map_notin by exact Hnotin.
    rewrite map_app. cbn [map]. f_equal.
    + apply map_ext_in. intros k' Hk'. rewrite group_of_snoc. fold k.
      destruct (String.eqb_spec k k') as [->|_]; [contradiction|].
      now rewrite app_nil_r.
    + rewrite group_of_snoc. fold k. rewrite String.eqb_refl.
      replace (group_of k l) with (@nil Path); [reflexivity|].
      symmetry. unfold group_of.
      destruct (filter _ l) as [|x g] eqn:F; [reflexivity|].
      exfalso. apply Hnotin. apply first_keys_In. exists x.
      assert (Hx : In x (filter (fun d0 => String.eqb (base_name_of (name d0)) k) l))
        by (rewrite F; now left).
      apply filter_In in Hx. destruct Hx as [Hx Ex].
      apply String.eqb_eq in Ex. now split.
Qed.

Lemma merge_group_In (site_dirs : list Path) (k : string) (group : list Path) :
  In (k, group) (merge_continuous_deployments site_dirs) ->
  group = group_of k site_dirs /\ group <> [] /\
  forall d, In d group <-> In d site_dirs /\ base_name_of (name d) = k.
Proof.
  rewrite merge_groups, in_map_iff. intros (k' & E & Hk). inversion E; subst.
  split; [reflexivity|].
  assert (Hmem : forall d, In d (group_of k site_dirs) <->
                           In d site_dirs /\ base_name_of (name d) = k).
  { intro d. unfold group_of. rewrite filter_In, String.eqb_eq. reflexivity. }
  split; [|exact Hmem].
  apply first_keys_In in Hk. destruct Hk as (d & Hd & Ed).
  intro Hnil. assert (Hin : In d (group_of k site_dirs)) by (apply Hmem; now split).
  rewrite Hnil in Hin. exact Hin.
Qed.

Lemma split_first_spec (c : ascii) (s : string) :
  str_contains c (split_first c s) = false /\
  (str_contains c s = false -> split_first c s = s) /\
  (str_contains c s = true ->
   exists rest, s = (split_first c s ++ String c rest)%string).
Proof.
  induction s as [|a s (IH1 & IH2 & IH3)]; cbn [split_first str_contains].
  - repeat split; [discriminate].
  - destruct (Ascii.eqb_spec a c) as [->|Hne]; cbn [orb str_contains String.append].
    + repeat split; [discriminate|]. intros _. now exists s.
    + destruct (Ascii.eqb_spec a c) as [E|_]; [contradiction|]. cbn [orb].
      split; [exact IH1|]. split.
      * intro H. now rewrite IH2.
      * intro H. destruct (IH3 H) as [rest E]. exists rest. now rewrite <- E.
Qed.

Lemma base_name_of_spec (n : string) :
  str_contains "-" (base_name_of n) = false /\
  (n = base_name_of n \/ exists rest, n = (base_name_of n ++ String "-" rest)%string).
Proof.
  unfold base_name_of.
  destruct (split_first_spec "-" n) as (H1 & H2 & H3).
  destruct (str_contains "-" n) eqn:E.
  - split; [exact H1|]. right. now apply H3.
  - split; [exact E|]. now left.
Qed.

Lemma analyze_merged_site_timestamps (p0 : Path) (ps : list Path) :
  exists r,
    analyze_merged_site (p0 :: ps) = Ok r /\
    site r = base_name_of (name p0) /\
    timestamps r = sorted dt_leb (site_events (p0 :: ps)) /\
    gaps r = find_gaps (timestamps r) 10 /\
    daily_counts r = count_daily (timestamps r) /\
    actual_recordings r = len (timestamps r).
Proof.
  destruct (site_events (p0 :: ps)) as [|t0 u] eqn:Ev.
  - eexists. split; [apply (analyze_merged_site_empty p0 ps Ev)|].
    repeat split.
  - destruct (analyze_merged_site_events p0 ps) as (f & rest & m & _ & _ & _ & Hr).
    { rewrite Ev; discriminate. }
    cbv zeta in Hr. rewrite Ev in Hr.
    eexists. split; [exact Hr|]. repeat split.
Qed.




(** * The heatmap table *)

Lemma date_eqb_eq (a b : date) : date_eqb a b = true <-> a = b.
Proof.
  destruct a as [ya ma da], b as [yb mb db]. unfold date_eqb. cbn [dyear dmonth dday].
  rewrite !andb_true_iff, !Z.eqb_eq. split.
  - intros [[-> ->] ->]. reflexivity.
  - intros [= -> -> ->]. auto.
Qed.

Lemma existsb_date_In (k : date) (s : list date) :
  existsb (date_eqb k) s = true <-> In k s.
Proof.
  rewrite existsb_exists. split.
  - intros (x & Hx & E). apply date_eqb_eq in E. now subst.
  - intro H. exists k. split; [exact H | now apply date_eqb_eq].
Qed.

Lemma set_update_spec (keys s : list date) :
  NoDup s ->
  NoDup (set_update s keys) /\
  forall d, In d (set_update s keys) <-> In d s \/ In d keys.
Proof.
  unfold set_update. revert s; induction keys as [|k keys IH]; intros s Hs.
  - cbn. split; [exact Hs | intro d; tauto].
  - cbn [fold_left]. destruct (existsb (date_eqb k) s) eqn:E.
    + destruct (IH s Hs) as [Hn Hm]. split; [exact Hn|].
      intro d. rewrite Hm. cbn [In]. apply existsb_date_In in E.
      split; [tauto|]. intros [H|[<-|H]]; tauto.
    + assert (Hk : ~ In k s) by (intro H; apply existsb_date_In in H; congruence).
      assert (Hs' : NoDup (s ++ [k])).
      { apply NoDup_app; [exact Hs | repeat constructor; intros [] |].
        intros x Hx [<-|[]]. contradiction. }
      destruct (IH _ Hs') as [Hn Hm]. split; [exact Hn|].
      intro d. rewrite Hm, in_app_iff. cbn [In]. tauto.
Qed.

Lemma union_dates_from (results : list site_result) (acc : list date) :
  NoDup acc ->
  let u := fold_left (fun all_dates r => set_update all_dates (map fst (daily_counts r)))
                     results acc in
  NoDup u /\
  forall d, In d u <->
            In d acc \/ exists r, In r results /\ In d (map fst (daily_counts r)).
Proof.
  revert acc; induction results as [|r0 rs IH]; intros acc Hacc; cbv zeta.
  - cbn. split; [exact Hacc|]. intro d. split; [tauto|].
    intros [H|(r & [] & _)]. exact H.
  - cbn [fold_left].
    destruct (set_update_spec (map fst (daily_counts r0)) acc Hacc) as [Hn Hm].
    destruct (IH _ Hn) as [Hn' Hm']. split; [exact Hn'|].
    intro d. rewrite Hm', Hm. split.
    + intros [[H|H]|(r & Hr & Hd)].
      * now left.
      * right. exists r0. split; [now left | exact H].
      * right. exists r. split; [now right | exact Hd].
    + intros [H|(r & [<-|Hr] & Hd)].
      * left. now left.
      * left. now right.
      * right. now exists r.
Qed.

Lemma union_dates_spec (results : list site_result) :
  NoDup (union_dates results) /\
  forall d, In d (union_dates results) <->
            exists r, In r results /\ In d (map fst (daily_counts r)).
Proof.
  destruct (union_dates_from results [] (NoDup_nil _)) as [Hn Hm].
  split; [exact Hn|]. intro d. rewrite (Hm d). cbn [In]. tauto.
Qed.

Lemma digit_char_inj (a b : Z) :
  0 <= a <= 9 -> 0 <= b <= 9 -> digit_char a = digit_char b -> a = b.
Proof.
  intros Ha Hb E. apply (f_equal digit_val) in E.
  rewrite !digit_val_char in E by assumption. now injection E.
Qed.

Lemma two_digits_inj (a b : Z) (r r' : string) :
  0 <= a <= 99 -> 0 <= b <= 99 -> two_digits a r = two_digits b r' -> a = b /\ r = r'.
Proof.
  intros Ha Hb E. unfold two_digits in E. injection E as E1 E2 E3.
  destruct (two_digit_parts a Ha) as (Hqa & Hra & Ea).
  destruct (two_digit_parts b Hb) as (Hqb & Hrb & Eb).
  apply digit_char_inj in E1, E2; try assumption.
  split; [lia | exact E3].
Qed.

Lemma String_tail_inj (c c' : ascii) (s s' : string) :
  String c s = String c' s' -> s = s'.
Proof. now intros [= _ ->]. Qed.

Lemma strftime_ymd_inj (a b : date) :
  date_in_range a -> date_in_range b ->
  strftime_ymd a = strftime_ymd b -> a = b.
Proof.
  intros (Hya & Hma & Hda) (Hyb & Hmb & Hdb) E.
  pose proof (days_in_month_pos (dyear a) (dmonth a)).
  pose proof (days_in_month_pos (dyear b) (dmonth b)).
  destruct a as [ya ma da], b as [yb mb db].
  unfold strftime_ymd, four_digits in E. cbn [dyear dmonth dday] in *.
  apply two_digits_inj in E; [|Z.div_mod_to_equations; lia..].
  destruct E as [Ehi E].
  apply two_digits_inj in E; [|Z.div_mod_to_equations; lia..].
  destruct E as [Elo E].
  apply String_tail_inj in E.
  apply two_digits_inj in E; [|lia..]. destruct E as [-> E].
  apply String_tail_inj in E.
  apply two_digits_inj in E; [|lia..]. destruct E as [-> _].
  f_equal. Z.div_mod_to_equations. lia.
Qed.

Lemma strftime_ymd_not_Site (d : date) :
  date_in_range d -> strftime_ymd d <> "Site"%string.
Proof.
  intros (Hy & _) E. pose proof (f_equal re_Y E) as EY.
  unfold strftime_ymd in EY. rewrite re_Y_four in EY by lia. discriminate.
Qed.

Lemma dict_set_fresh (k : string) (v : cell) (r : row) :
  ~ In k (map fst r) -> dict_set k v r = r ++ [(k, v)].
Proof.
  induction r as [|[k0 v0] r IH]; intro H; [reflexivity|].
  cbn [dict_set app]. destruct (String.eqb_spec k0 k) as [->|Hne].
  - exfalso. apply H. now left.
  - rewrite IH; [reflexivity|]. intro Hin. apply H. now right.
Qed.

Lemma heatmap_row_from (r : site_result) (dates : list date) (row0 : row) :
  NoDup (map strftime_ymd dates) ->
  (forall d, In d dates -> ~ In (strftime_ymd d) (map fst row0)) ->
  fold_left (fun row d =>
               dict_set (strftime_ymd d) (CInt (dict_get d (daily_counts r) 0)) row)
            dates row0
  = row0 ++ map (fun d => (strftime_ymd d, CInt (dict_get d (daily_counts r) 0))) dates.
Proof.
  revert row0; induction dates as [|d dates IH]; intros row0 Hnd Hfresh.
  - cbn. now rewrite app_nil_r.
  - cbn [fold_left map] in *. inversion Hnd as [|? ? Hd Hnd']; subst.
    rewrite dict_set_fresh by (apply Hfresh; now left).
    rewrite IH.
    + now rewrite <- app_assoc.
    + exact Hnd'.
    + intros d' Hd'. rewrite map_app, in_app_iff. cbn [map fst In].
      intros [H|[H|[]]].
      * apply (Hfresh d'); [now right | exact H].
      * apply Hd. rewrite H. now apply in_map.
Qed.

Lemma dict_get_absent (d : date) (m : list (date * Z)) (default : Z) :
  ~ In d (map fst m) -> dict_get d m default = default.
Proof.
  induction m as [|[k v] m IH]; intro H; [reflexivity|].
  cbn [dict_get]. destruct (date_eqb k d) eqn:E.
  - apply date_eqb_eq in E. exfalso. apply H. now left.
  - apply IH. intro Hin. apply H. now right.
Qed.

Lemma dict_get_present (d : date) (m : list (date * Z)) (default : Z) :
  In d (map fst m) -> exists v, In (d, v) m /\ dict_get d m default = v.
Proof.
  induction m as [|[k v] m IH]; [contradiction|].
  intro H. cbn [dict_get]. destruct (date_eqb k d) eqn:E.
  - apply date_eqb_eq in E. subst k. exists v. split; [now left | reflexivity].
  - destruct H as [H|H].
    + cbn in H. subst k. assert (date_eqb d d = true) by now apply date_eqb_eq.
      congruence.
    + destruct (IH H) as (v' & Hin & Hv). exists v'. split; [now right | exact Hv].
Qed.

Lemma row_get_dense (f : date -> string) (g : date -> cell) (dates : list date)
      (d : date) :
  (forall d', In d' dates -> f d' = f d -> d' = d) ->
  In d dates ->
  row_get (f d) (map (fun x => (f x, g x)) dates) = Some (g d).
Proof.
  induction dates as [|d0 dates IH]; intros Hinj Hin; [contradiction|].
  cbn [map row_get]. destruct (String.eqb_spec (f d0) (f d)) as [E|Hne].
  - rewrite (Hinj d0 (or_introl eq_refl) E). reflexivity.
  - destruct Hin as [->|Hin]; [congruence|].
    apply IH; [|exact Hin]. intros d' Hd'. apply Hinj. now right.
Qed.

(** C7, as the code has it.  When no site has a dated count the table is
    empty.  Otherwise it has one row per site result, in order; each row
    holds the site under [Site] and one cell per date of the sorted union
    of the sites' dates, under pairwise distinct labels; the cell of a
    site and a date is the site's count for that date, 0 for a date the
    site has no count for. *)
Theorem heatmap_table (results : list site_result) :
  Forall (fun r => Forall (fun kv => date_in_range (fst kv)) (daily_counts r)) results ->
  let dates := sorted date_leb (union_dates results) in
  (union_dates results = [] -> create_daily_heatmap_data results = [])
  /\ (union_dates results <> [] ->
      create_daily_heatmap_data results = map (dense_row dates) results)
  /\ Sorted date_le dates /\ NoDup dates
  /\ (forall d, In d dates <->
                exists r, In r results /\ In d (map fst (daily_counts r)))
  /\ NoDup ("Site"%string :: map strftime_ymd dates)
  /\ (forall r d, In d dates ->
        row_get (strftime_ymd d) (dense_row dates r)
        = Some (CInt (dict_get d (daily_counts r) 0)))
  /\ (forall r d, In d (map fst (daily_counts r)) ->
        exists v, In (d, v) (daily_counts r) /\ dict_get d (daily_counts r) 0 = v)
  /\ (forall r d, ~ In d (map fst (daily_counts r)) ->
        dict_get d (daily_counts r) 0 = 0).
Proof.
  intros Hrange dates.
  destruct (union_dates_spec results) as [Hnd Hmem].
  pose proof (sorted_perm date_leb (union_dates results)) as Hperm.
  fold dates in Hperm.
  assert (Hdates : forall d, In d dates <->
                     exists r, In r results /\ In d (map fst (daily_counts r))).
  { intro d. rewrite <- Hmem. split; apply Permutation_in;
      [apply Permutation_sym|]; exact Hperm. }
  assert (Hin_range : forall d, In d dates -> date_in_range d).
  { intros d Hd. apply Hdates in Hd. destruct Hd as (r & Hr & Hd).
    rewrite Forall_forall in Hrange. specialize (Hrange r Hr).
    rewrite Forall_forall in Hrange.
    apply in_map_iff in Hd. destruct Hd as (kv & <- & Hkv). now apply Hrange. }
  assert (Hnd' : NoDup dates) by (eapply Permutation_NoDup; eassumption).
  assert (Hlabels : NoDup (map strftime_ymd dates)).
  { apply NoDup_map_NoDup_ForallPairs; [|exact Hnd'].
    intros a b Ha Hb E. apply strftime_ymd_inj; auto. }
  assert (Hsite : ~ In "Site"%string (map strftime_ymd dates)).
  { intro H. apply in_map_iff in H. destruct H as (d & E & Hd).
    exact (strftime_ymd_not_Site d (Hin_range d Hd) E). }
  split.
  { intro E. unfold create_daily_heatmap_data. now rewrite E. }
  split.
  { intro Hne. unfold create_daily_heatmap_data.
    destruct (union_dates results) as [|d0 u] eqn:Eu; [congruence|].
    apply map_ext. intro r. unfold heatmap_row.
    rewrite heatmap_row_from; [reflexivity | exact Hlabels |].
    intros d Hd [E|[]]. cbn [fst] in E. apply Hsite. rewrite E.
    now apply in_map. }
  split; [apply sorted_Sorted, date_leb_total|].
  split; [exact Hnd'|].
  split; [exact Hdates|].
  split; [constructor; assumption|].
  split.
  { intros r d Hd. unfold dense_row. cbn [row_get].
    destruct (String.eqb_spec "Site" (strftime_ymd d)) as [E|_].
    - exfalso. exact (strftime_ymd_not_Site d (Hin_range d Hd) (eq_sym E)).
    - apply (row_get_dense strftime_ymd
               (fun x => CInt (dict_get x (daily_counts r) 0))); [|exact Hd].
      intros d' Hd' E. apply strftime_ymd_inj; auto. }
  split; [intros r d; apply dict_get_present|].
  intros r d. apply dict_get_absent.
Qed.

(** C7 as stated fails for site results without any dated count: the
    table of one empty site has no row. *)
Lemma heatmap_of_empty_site_has_no_row :
  exists r,
    analyze_merged_site [mkPath "A1" []] = Ok r /\
    create_daily_heatmap_data [r] = [] /\
    len (create_daily_heatmap_data [r]) <> len [r].
Proof.
  eexists. split; [reflexivity|]. split; [reflexivity|]. discriminate.
Qed.

Lemma heatmap_table_witness :
  create_daily_heatmap_data
    [mkresult "A" ["A"%string] 1 2 0 None None 0 2 None None None [] []
              [(mkdate 2025 6 1, 2)];
     mkresult "B" ["B"%string] 1 1 0 None None 0 1 None None None [] []
              [(mkdate 2025 6 2, 1)]]
  = [[("Site", CStr "A"); ("2025-06-01", CInt 2); ("2025-06-02", CInt 0)];
     [("Site", CStr "B"); ("2025-06-01", CInt 0); ("2025-06-02", CInt 1)]]%string.
Proof.
  pose proof (heatmap_table
                [mkresult "A" ["A"%string] 1 2 0 None None 0 2 None None None [] []
                          [(mkdate 2025 6 1, 2)];
                 mkresult "B" ["B"%string] 1 1 0 None None 0 1 None None None [] []
                          [(mkdate 2025 6 2, 1)]]) as H.
  cbv zeta in H.
  destruct H as (_ & H & _).
  - repeat constructor; cbn; lia.
  - rewrite H; [reflexivity|]. vm_compute. discriminate.
Defined.

(** * The whole run *)

Lemma for_each_Ok {A B : Type} (f : A -> result B) (l : list A) :
  (forall x, In x l -> exists y, f x = Ok y) ->
  exists ys, for_each f l = Ok ys /\ Forall2 (fun x y => f x = Ok y) l ys.
Proof.
  induction l as [|x l IH]; intro H.
  - exists []. split; [reflexivity | constructor].
  - destruct (H x (or_introl eq_refl)) as [y Hy].
    destruct IH as (ys & Hys & Hall); [intros z Hz; apply H; now right|].
    exists (y :: ys). cbn [for_each]. rewrite Hy, Hys. split; [reflexivity|].
    now constructor.
Qed.

Lemma for_each_Raise {A B : Type} (f : A -> result B) (l : list A) (e : exn) (x : A) :
  In x l -> f x = Raise e ->
  (forall z, In z l -> f z = Raise e \/ exists y, f z = Ok y) ->
  for_each f l = Raise e.
Proof.
  induction l as [|z l IH]; intros Hin Hx Hall; [contradiction|].
  cbn [for_each].
  destruct (Hall z (or_introl eq_refl)) as [Hz | [y Hz]]; rewrite Hz; [reflexivity|].
  cbn [bind]. destruct Hin as [->|Hin]; [congruence|].
  rewrite IH; [reflexivity | exact Hin | exact Hx |].
  intros w Hw. apply Hall. now right.
Qed.

Lemma site_step_empty (p0 : Path) (ps : list Path) :
  site_events (p0 :: ps) = [] ->
  site_step (p0 :: ps) = Raise (KeyError "completeness_pct").
Proof.
  intro E. unfold site_step. rewrite (analyze_merged_site_empty p0 ps E).
  reflexivity.
Qed.

Lemma site_step_events (p0 : Path) (ps : list Path) :
  site_events (p0 :: ps) <> [] ->
  exists r line,
    site_step (p0 :: ps) = Ok (r, line) /\
    analyze_merged_site (p0 :: ps) = Ok r /\ with_events r.
Proof.
  intro Hne.
  destruct (analyze_merged_site_events p0 ps Hne)
    as (first_rec & rest & m & Hts & Hm & Hm1 & Hr).
  cbv zeta in Hr.
  eexists _, _. split; [|split; [exact Hr|]].
  - unfold site_step. rewrite Hr. cbn [bind completeness_pct getitem]. reflexivity.
  - exists m. eexists _, _.
    cbn [median_daily_recordings expected_recordings completeness_pct timestamps].
    repeat split; try assumption.
    + rewrite Hts. discriminate.
    + apply Forall_forall. intros t Ht.
      apply (site_events_valid (p0 :: ps)).
      eapply Permutation_in; [apply Permutation_sym, sorted_perm | exact Ht].
Qed.

Lemma items_In (site_dirs : list Path) (item : string * list Path) :
  In item (sorted (fun a b => String.leb (fst a) (fst b))
                  (merge_continuous_deployments site_dirs))
  <-> In item (merge_continuous_deployments site_dirs).
Proof.
  split; apply Permutation_in; [apply Permutation_sym|]; apply sorted_perm.
Qed.

(** C4, where the code departs from it.  The analysis of a site without a
    valid event returns a zeroed result without gaps, but that result
    lacks the key [completeness_pct]: the loop that prints the site lines
    raises [KeyError] on it and the run ends there, before any table is
    built. *)
Theorem empty_site_aborts_run (site_dirs : list Path) (k : string)
                              (group : list Path) :
  In (k, group) (merge_continuous_deployments site_dirs) ->
  site_events group = [] ->
  (exists r,
     analyze_merged_site group = Ok r /\
     n_files r = len (site_files group) /\
     actual_recordings r = 0 /\ timestamps r = [] /\ gaps r = [] /\
     gap_rows_of r = [] /\ daily_counts r = [] /\
     completeness_pct r = None /\
     summary_of r = Raise (KeyError "expected_recordings"))
  /\ analyze_all_sites (Some site_dirs) = Raise (KeyError "completeness_pct").
Proof.
  intros Hin Hev.
  destruct (merge_group_In _ _ _ Hin) as (_ & Hne & _).
  destruct group as [|p0 ps]; [congruence|].
  split.
  - eexists. split; [apply (analyze_merged_site_empty p0 ps Hev)|].
    repeat split.
  - unfold analyze_all_sites.
    rewrite (for_each_Raise _ _ (KeyError "completeness_pct") (k, p0 :: ps)).
    + reflexivity.
    + now apply items_In.
    + now apply site_step_empty.
    + intros [k' g'] Hz. apply items_In in Hz.
      destruct (merge_group_In _ _ _ Hz) as (_ & Hne' & _).
      destruct g' as [|q0 qs]; [congruence|]. cbn [snd].
      destruct (site_events (q0 :: qs)) as [|t0 u] eqn:Ev.
      * left. now apply site_step_empty.
      * right. destruct (site_step_events q0 qs) as (r & line & Hs & _).
        { rewrite Ev. discriminate. }
        now exists (r, line).
Qed.

Lemma empty_site_aborts_run_witness :
  analyze_all_sites (Some [mkPath "A1" []]) = Raise (KeyError "completeness_pct").
Proof.
  exact (proj2 (empty_site_aborts_run [mkPath "A1" []] "A1" [mkPath "A1" []]
                  (or_introl eq_refl) eq_refl)).
Defined.

Lemma fpos_ge_1 (m : Q) : (1 <= m)%Q -> fpos (Fin m) = true.
Proof.
  intro H. cbn. destruct (Qle_bool m 0) eqn:E; [|reflexivity].
  apply Qle_bool_iff in E. lra.
Qed.

Lemma summary_of_with_events (r : site_result) :
  with_events r -> exists row, summary_of r = Ok row.
Proof.
  intros (m & e & pct & Hm & _ & He & Hp & _).
  unfold summary_of. rewrite He, Hp, Hm. cbn [getitem bind py_int].
  eexists. reflexivity.
Qed.

Lemma positive_medians_with_events (rs : list site_result) :
  Forall with_events rs ->
  exists ms,
    positive_medians rs = Ok ms /\
    List.length (finite_values ms) = List.length rs /\
    forall q, In q (finite_values ms) -> (1 <= q)%Q.
Proof.
  induction 1 as [|r rs Hr Hrs IH].
  - exists []. repeat split. intros q [].
  - destruct Hr as (m & e & pct & Hm & Hm1 & _).
    destruct IH as (ms & Hms & Hlen & Hge).
    exists (Fin m :: ms). cbn [positive_medians].
    rewrite Hm, Hms. cbn [getitem bind]. rewrite (fpos_ge_1 m Hm1).
    split; [reflexivity|]. cbn [finite_values flat_map app List.length].
    split; [now f_equal|].
    intros q [<-|Hq]; [exact Hm1 | now apply Hge].
Qed.

Lemma all_timestamps_with_events (rs : list site_result) :
  Forall with_events rs ->
  Forall (fun t => valid_datetime t = true) (flat_map timestamps rs)
  /\ (rs <> [] -> flat_map timestamps rs <> []).
Proof.
  induction 1 as [|r rs Hr Hrs [IHv IHn]].
  - split; [constructor | congruence].
  - destruct Hr as (m & e & pct & _ & _ & _ & _ & Hne & Hv).
    cbn [flat_map]. split.
    + apply Forall_app. now split.
    + intros _ E. apply app_eq_nil in E. destruct E as [E _]. contradiction.
Qed.

Lemma global_statistics_with_events (rs : list site_result) (n nd ng : Z) :
  Forall with_events rs -> rs <> [] -> 0 <= n ->
  exists g ms m,
    global_statistics rs n nd ng = Ok (Some g) /\
    positive_medians rs = Ok ms /\
    List.length (finite_values ms) = List.length rs /\
    np_median (finite_values ms) = Fin m /\ (1 <= m)%Q /\
    Unique_Sites g = n /\
    (forall t, In t (flat_map timestamps rs) ->
       dt_le (Global_First_Recording g) t /\ dt_le t (Global_Last_Recording g)) /\
    Global_Valid_Recordings g = len (flat_map timestamps rs) /\
    Global_Expected_Recordings g =
      Qfloor (m * elapsed_days (Global_First_Recording g) (Global_Last_Recording g)
              * inject_Z n) /\
    0 <= Global_Expected_Recordings g /\
    (Global_Expected_Recordings g = 0 -> (Global_Completeness_pct g == 0)%Q) /\
    (0 < Global_Expected_Recordings g ->
     Global_Completeness_pct g =
       round2 (inject_Z (Global_Valid_Recordings g)
               / inject_Z (Global_Expected_Recordings g) * 100)).
Proof.
  intros Hall Hne Hn.
  destruct (positive_medians_with_events rs Hall) as (ms & Hms & Hlen & Hge).
  destruct (all_timestamps_with_events rs Hall) as [Hvalid Hnonempty].
  specialize (Hnonempty Hne).
  destruct (np_median_ge (finite_values ms) 1) as (m & Hm & Hm1).
  { destruct rs; [congruence|]. destruct (finite_values ms); discriminate. }
  { exact Hge. }
  destruct (flat_map timestamps rs) as [|t0 u] eqn:Eall; [congruence|].
  destruct (sorted dt_leb (t0 :: u)) as [|first_rec rest] eqn:Es.
  { apply sorted_nil_inv in Es. discriminate. }
  destruct (sorted_first_last _ _ _ Es) as (Hfirst & Hlast & Hbounds).
  set (last_rec := last (first_rec :: rest) first_rec) in *.
  rewrite Forall_forall in Hvalid.
  assert (Hdur : (0 <= elapsed_days first_rec last_rec)%Q).
  { apply elapsed_days_nonneg, elapsed_nonneg; auto. now apply Hbounds. }
  assert (Hprod : (0 <= m * elapsed_days first_rec last_rec * inject_Z n)%Q).
  { apply Qmult_le_0_compat.
    - apply Qmult_le_0_compat; [lra | exact Hdur].
    - change 0%Q with (inject_Z 0). now rewrite <- Zle_Qle. }
  destruct (trunc_nonneg _ Hprod) as [Htr Hfl].
  unfold global_statistics. rewrite Eall, Es, Hms.
  cbn [bind hd]. rewrite (last_cons_default first_rec rest t0 first_rec).
  fold last_rec. rewrite Hm. cbn [fmul py_int bind].
  fold (elapsed_days first_rec last_rec). rewrite Htr.
  set (e := Qfloor _) in *.
  assert (Hlen' : len (first_rec :: rest) = len (t0 :: u)).
  { unfold len. f_equal. rewrite <- Es. apply sorted_length. }
  destruct (Z.ltb_spec 0 e) as [He|He].
  - unfold truediv. destruct (Z.eqb_spec e 0) as [E0|_]; [lia|].
    cbn [bind]. eexists _, ms, m.
    split; [reflexivity|].
    cbn [Unique_Sites Global_First_Recording Global_Last_Recording
         Global_Valid_Recordings Global_Expected_Recordings Global_Completeness_pct].
    repeat split; auto; try lia.
    + now apply Hbounds.
    + now apply Hbounds.
  - cbn [bind]. eexists _, ms, m.
    split; [reflexivity|].
    cbn [Unique_Sites Global_First_Recording Global_Last_Recording
         Global_Valid_Recordings Global_Expected_Recordings Global_Completeness_pct].
    repeat split; auto; try lia.
    + now apply Hbounds.
    + now apply Hbounds.
Qed.






(** * More on the timestamp parser *)

Lemma strip_extension (t : datetime) (ext : string) :
  valid_datetime t = true ->
  ext = ".WAV"%string \/ ext = ".wav"%string ->
  str_remove ".wav" (str_remove ".WAV" (audiomoth_name t ++ ext)) = audiomoth_name t.
Proof.
  intros V Hext. pose proof (audiomoth_name_no_dot t V) as Hdot.
  destruct Hext as [-> | ->].
  - rewrite (str_remove_no_dot "WAV" _ ".WAV" Hdot).
    change (str_remove ".WAV" ".WAV") with EmptyString.
    rewrite append_empty.
    rewrite <- (append_empty (audiomoth_name t)) at 1.
    rewrite (str_remove_no_dot "wav" _ EmptyString Hdot).
    apply append_empty.
  - rewrite (str_remove_no_dot "WAV" _ ".wav" Hdot).
    change (str_remove ".WAV" ".wav") with ".wav"%string.
    rewrite (str_remove_no_dot "wav" _ ".wav" Hdot).
    apply append_empty.
Qed.

(** X1. A well-formed recorder name whose year is before 2024 is
    rejected: the clock-reset filter returns the invalid signal for it. *)
Theorem parse_rejects_early_year (t : datetime) (ext : string) :
  valid_datetime t = true ->
  year t < min_valid_year ->
  ext = ".WAV"%string \/ ext = ".wav"%string ->
  parse_audiomoth_filename (audiomoth_name t ++ ext) = None.
Proof.
  intros V Hy Hext. unfold parse_audiomoth_filename.
  rewrite (strip_extension t ext V Hext), (strptime_name t V).
  destruct (Z.ltb_spec (year t) min_valid_year); [reflexivity | lia].
Qed.

Lemma parse_rejects_early_year_witness :
  parse_audiomoth_filename "19700101_000000.WAV" = None.
Proof.
  exact (parse_rejects_early_year (mkdt 1970 1 1 0 0 0) ".WAV"
           eq_refl ltac:(unfold min_valid_year; cbn; lia) (or_introl eq_refl)).
Defined.

(** * More on gaps *)

Lemma adjacent_pairs_app {A : Type} (l : list A) (a b : A) (l' : list A) :
  adjacent_pairs ((l ++ [a]) ++ b :: l') =
  adjacent_pairs (l ++ [a]) ++ (a, b) :: adjacent_pairs (b :: l').
Proof.
  induction l as [|x l IH]; [reflexivity|].
  cbn [app] in *.
  destruct l as [|y l].
  - reflexivity.
  - cbn [app] in *. rewrite !adjacent_pairs_cons, IH. reflexivity.
Qed.

(** X2. Gap detection composes over concatenation: the gaps of two
    sequences put end to end are the gaps of the first, the gap (if any)
    between the last event of the first and the first event of the second,
    and the gaps of the second. *)
Theorem find_gaps_concat (l : list datetime) (a b : datetime) (l' : list datetime)
                         (tol : Z) :
  find_gaps ((l ++ [a]) ++ b :: l') tol =
  find_gaps (l ++ [a]) tol ++ find_gaps [a; b] tol ++ find_gaps (b :: l') tol.
Proof.
  rewrite !find_gaps_pairs, adjacent_pairs_app, filter_app, map_app.
  f_equal. cbn [adjacent_pairs filter].
  destruct (elapsed_exceeds tol (a, b)); reflexivity.
Qed.

Lemma elapsed_exceeds_mono (tol tol' : Z) (p : datetime * datetime) :
  tol <= tol' -> elapsed_exceeds tol' p = true -> elapsed_exceeds tol p = true.
Proof. unfold elapsed_exceeds. rewrite !Z.ltb_lt. lia. Qed.

Lemma filter_length_le {A : Type} (P Q : A -> bool) (l : list A) :
  (forall x, P x = true -> Q x = true) ->
  (List.length (filter P l) <= List.length (filter Q l))%nat.
Proof.
  intro H. induction l as [|x l IH]; [cbn; lia|].
  cbn [filter]. destruct (P x) eqn:E.
  - rewrite (H x E). cbn. lia.
  - destruct (Q x); cbn; lia.
Qed.

(** X3. Raising the tolerance can only remove gaps: every gap found with
    the larger tolerance is found with the smaller one, and there are no
    more of them. *)
Theorem find_gaps_tolerance_monotone (ts : list datetime) (tol tol' : Z) :
  tol <= tol' ->
  (forall g, In g (find_gaps ts tol') -> In g (find_gaps ts tol))
  /\ len (find_gaps ts tol') <= len (find_gaps ts tol).
Proof.
  intro H. rewrite !find_gaps_pairs. split.
  - intros g Hg. apply in_map_iff in Hg. destruct Hg as (p & <- & Hp).
    apply in_map. apply filter_In in Hp. destruct Hp as [Hin Hx].
    apply filter_In. split; [exact Hin|]. now apply (elapsed_exceeds_mono tol tol').
  - unfold len. rewrite !length_map. apply inj_le.
    apply filter_length_le. intros p. now apply elapsed_exceeds_mono.
Qed.

Lemma find_gaps_tolerance_monotone_witness :
  len (find_gaps [mkdt 2025 6 1 6 0 0; mkdt 2025 6 1 6 20 0; mkdt 2025 6 1 8 0 0] 60)
  <= len (find_gaps [mkdt 2025 6 1 6 0 0; mkdt 2025 6 1 6 20 0; mkdt 2025 6 1 8 0 0] 10).
Proof.
  exact (proj2 (find_gaps_tolerance_monotone
                  [mkdt 2025 6 1 6 0 0; mkdt 2025 6 1 6 20 0; mkdt 2025 6 1 8 0 0]
                  10 60 ltac:(lia))).
Defined.

(** * More on the per-site analysis *)

Lemma dict_incr_get (k d : date) (m : list (date * Z)) :
  dict_get d (dict_incr k m) 0 =
  dict_get d m 0 + (if date_eqb k d then 1 else 0).
Proof.
  induction m as [|[k0 v0] m IH]; cbn [dict_incr dict_get].
  - destruct (date_eqb k d); reflexivity.
  - destruct (date_eqb k0 k) eqn:E0; cbn [dict_get].
    + apply date_eqb_eq in E0. subst k0.
      destruct (date_eqb k d); lia.
    + destruct (date_eqb k0 d) eqn:E1; [|exact IH].
      apply date_eqb_eq in E1. subst k0.
      destruct (date_eqb k d) eqn:E2; [|lia].
      apply date_eqb_eq in E2. subst k.
      rewrite (proj2 (date_eqb_eq d d) eq_refl) in E0. discriminate.
Qed.

Lemma dict_incr_keys (k : date) (m : list (date * Z)) :
  map fst (dict_incr k m) =
  if existsb (date_eqb k) (map fst m) then map fst m else map fst m ++ [k].
Proof.
  induction m as [|[k0 v0] m IH]; [reflexivity|].
  cbn [dict_incr map fst existsb].
  destruct (date_eqb k0 k) eqn:E0.
  - apply date_eqb_eq in E0. subst k0.
    assert (E : date_eqb k k = true) by now apply date_eqb_eq.
    rewrite E. reflexivity.
  - assert (E : date_eqb k k0 = false).
    { destruct (date_eqb k k0) eqn:E; [|reflexivity].
      apply date_eqb_eq in E. subst k0.
      assert (date_eqb k k = true) by now apply date_eqb_eq. congruence. }
    rewrite E. cbn [orb map fst]. rewrite IH.
    destruct (existsb (date_eqb k) (map fst m)); reflexivity.
Qed.

Lemma dict_incr_keys_NoDup (k : date) (m : list (date * Z)) :
  NoDup (map fst m) -> NoDup (map fst (dict_incr k m)).
Proof.
  intro H. rewrite dict_incr_keys.
  destruct (existsb (date_eqb k) (map fst m)) eqn:E; [exact H|].
  apply NoDup_app; [exact H | repeat constructor; intros [] |].
  intros x Hx [<-|[]]. apply existsb_date_In in Hx. congruence.
Qed.

Lemma events_on_cons (d : date) (t : datetime) (ts : list datetime) :
  events_on d (t :: ts) = (if date_eqb (date_of t) d then 1 else 0) + events_on d ts.
Proof.
  unfold events_on, len. cbn [filter].
  destruct (date_eqb (date_of t) d); cbn [List.length]; lia.
Qed.

Lemma count_daily_lookup_from (ts : list datetime) (m : list (date * Z)) :
  NoDup (map fst m) ->
  let m' := fold_left (fun c t => dict_incr (date_of t) c) ts m in
  NoDup (map fst m') /\
  forall d, dict_get d m' 0 = dict_get d m 0 + events_on d ts.
Proof.
  revert m; induction ts as [|t ts IH]; intros m Hm; cbv zeta; cbn [fold_left].
  - split; [exact Hm|]. intro d. unfold events_on, len. cbn. lia.
  - destruct (IH _ (dict_incr_keys_NoDup (date_of t) m Hm)) as [Hn Hg].
    split; [exact Hn|]. intro d.
    rewrite Hg, dict_incr_get, events_on_cons. lia.
Qed.

Lemma events_on_pos (d : date) (ts : list datetime) :
  0 < events_on d ts <-> exists t, In t ts /\ date_of t = d.
Proof.
  unfold events_on, len. split.
  - intro H. destruct (filter _ ts) as [|t l] eqn:F; [cbn in H; lia|].
    assert (Hin : In t (filter (fun t => date_eqb (date_of t) d) ts))
      by (rewrite F; now left).
    apply filter_In in Hin. destruct Hin as [Hin E].
    exists t. split; [exact Hin | now apply date_eqb_eq].
  - intros (t & Hin & E).
    assert (Hf : In t (filter (fun t => date_eqb (date_of t) d) ts)).
    { apply filter_In. split; [exact Hin | now apply date_eqb_eq]. }
    destruct (filter _ ts); [contradiction | cbn; lia].
Qed.

(** X4. The daily counts of a site result count its events: the count
    stored for a date is the number of the site's events on that date (0
    for a date without events), every stored count is at least 1, no date
    is stored twice, and the counts add up to the number of valid
    recordings. *)
Theorem daily_counts_count_events (p0 : Path) (ps : list Path) :
  exists r,
    analyze_merged_site (p0 :: ps) = Ok r /\
    (forall d, dict_get d (daily_counts r) 0 = events_on d (timestamps r)) /\
    (forall d, In d (map fst (daily_counts r)) <->
               exists t, In t (timestamps r) /\ date_of t = d) /\
    NoDup (map fst (daily_counts r)) /\
    Forall (fun kv => 1 <= snd kv) (daily_counts r) /\
    sumZ (map snd (daily_counts r)) = actual_recordings r.
Proof.
  destruct (analyze_merged_site_timestamps p0 ps) as (r & Hr & _ & _ & _ & Hdc & Hact).
  exists r. split; [exact Hr|].
  destruct (count_daily_lookup_from (timestamps r) [] (NoDup_nil _)) as [Hn Hg].
  fold (count_daily (timestamps r)) in Hn, Hg. rewrite <- Hdc in Hn, Hg.
  assert (Hval : Forall (fun kv => 1 <= snd kv) (daily_counts r))
    by (rewrite Hdc; apply count_daily_values).
  assert (Hget : forall d, dict_get d (daily_counts r) 0 = events_on d (timestamps r)).
  { intro d. rewrite Hg. cbn [dict_get]. lia. }
  split; [exact Hget|]. split.
  { intro d. rewrite <- events_on_pos, <- Hget. split.
    - intro Hin. destruct (dict_get_present d _ 0 Hin) as (v & Hv & ->).
      rewrite Forall_forall in Hval. specialize (Hval _ Hv). cbn in Hval. lia.
    - intro Hpos. destruct (in_dec (fun a b : date =>
                                      match bool_dec (date_eqb a b) true with
                                      | left e => left (proj1 (date_eqb_eq a b) e)
                                      | right n => right (fun e => n (proj2 (date_eqb_eq a b) e))
                                      end)
                                   d (map fst (daily_counts r))) as [Hin|Hout];
        [exact Hin|].
      rewrite (dict_get_absent d _ 0 Hout) in Hpos. lia. }
  split; [exact Hn|]. split; [exact Hval|].
  rewrite Hdc, Hact. apply count_daily_sum.
Qed.

Lemma adjacent_pairs_length {A : Type} (l : list A) :
  List.length (adjacent_pairs l) = (List.length l - 1)%nat.
Proof.
  induction l as [|a l IH]; [reflexivity|].
  destruct l as [|b l]; [reflexivity|].
  rewrite adjacent_pairs_cons. cbn [List.length] in *. lia.
Qed.

Lemma find_gaps_length_le (ts : list datetime) (tol : Z) :
  len (find_gaps ts tol) <= Z.max 0 (len ts - 1).
Proof.
  rewrite find_gaps_pairs. unfold len. rewrite length_map.
  pose proof (filter_length (elapsed_exceeds tol) (adjacent_pairs ts)) as H.
  rewrite adjacent_pairs_length in H. lia.
Qed.

Lemma parsed_le_files (files : list string) : len (parsed files) <= len files.
Proof.
  induction files as [|f l IH]; [cbn; lia|].
  unfold parsed. cbn [flat_map]. fold (parsed l). rewrite len_app.
  destruct (parse_audiomoth_filename f); unfold len in *; cbn [List.length]; lia.
Qed.

Lemma site_events_le_files (site_paths : list Path) :
  len (site_events site_paths) <= len (site_files site_paths).
Proof.
  unfold site_events, site_files.
  induction (sorted path_leb site_paths) as [|p l IH]; [cbn; lia|].
  cbn [flat_map]. rewrite !len_app.
  pose proof (parsed_le_files (folder_files p)) as H.
  fold (folder_events p) in H. lia.
Qed.

(** X5. Invariants of a site result, with events or without: the folder
    list and count are those given; the invalid and the valid counts lie
    between 0 and the number of scanned files; every kept event is a valid
    calendar instant of year 2024 or later; the duration is not negative;
    there are fewer gaps than events (none without events); and the first
    and last recording are absent exactly when there is no event. *)
Theorem site_result_invariants (p0 : Path) (ps : list Path) :
  exists r,
    analyze_merged_site (p0 :: ps) = Ok r /\
    deployment_folders r = map name (p0 :: ps) /\
    n_folders r = len (p0 :: ps) /\
    0 <= invalid_files r <= n_files r /\
    0 <= actual_recordings r <= n_files r /\
    Forall plausible (timestamps r) /\
    (0 <= duration_days r)%Q /\
    len (gaps r) <= Z.max 0 (actual_recordings r - 1) /\
    (timestamps r = [] <-> first_recording r = None) /\
    (timestamps r = [] <-> last_recording r = None).
Proof.
  pose proof (site_events_le_files (p0 :: ps)) as Hle.
  pose proof (len_nonneg (site_events (p0 :: ps))) as H0.
  destruct (site_events (p0 :: ps)) as [|t0 u] eqn:Ev.
  - eexists. split; [apply (analyze_merged_site_empty p0 ps Ev)|].
    cbn [deployment_folders n_folders invalid_files n_files actual_recordings
         timestamps duration_days gaps first_recording last_recording].
    pose proof (len_nonneg (site_files (p0 :: ps))) as Hf.
    change (len (@nil gap)) with 0.
    repeat split; try reflexivity; try lia.
    + constructor.
    + discriminate.
  - destruct (analyze_merged_site_events p0 ps) as (f & rest & m & Hts & Hm & Hm1 & Hr).
    { rewrite Ev; discriminate. }
    cbv zeta in Hr, Hts. rewrite Ev in Hr, Hts.
    eexists. split; [exact Hr|].
    cbn [deployment_folders n_folders invalid_files n_files actual_recordings
         timestamps duration_days gaps first_recording last_recording].
    destruct (sorted_first_last _ _ _ Hts) as (Hfirst & Hlast & Hbounds).
    assert (Hvalid : forall t, In t (t0 :: u) -> plausible t).
    { intros t Ht. apply (site_events_valid (p0 :: ps)). now rewrite Ev. }
    assert (Hlen : len (sorted dt_leb (t0 :: u)) = len (t0 :: u)).
    { unfold len. now rewrite (sorted_length dt_leb). }
    rewrite Hlen.
    split; [reflexivity|]. split; [reflexivity|].
    split; [lia|]. split; [lia|].
    split.
    { apply Forall_forall. intros t Ht. apply Hvalid.
      eapply Permutation_in; [apply Permutation_sym, sorted_perm | exact Ht]. }
    split.
    { rewrite Hts. apply elapsed_days_nonneg, elapsed_nonneg.
      - now apply Hvalid.
      - now apply Hvalid.
      - now apply Hbounds. }
    split.
    { rewrite <- Hlen. apply find_gaps_length_le. }
    rewrite Hts. split; split; discriminate.
Qed.

(** X6. The median daily rate of a site with events lies between its
    smallest and its largest daily count; in particular it is at least one
    event a day. *)
Theorem site_median_between_counts (p0 : Path) (ps : list Path) (lo hi : Z) :
  site_events (p0 :: ps) <> [] ->
  exists r m,
    analyze_merged_site (p0 :: ps) = Ok r /\
    median_daily_recordings r = Some (Fin m) /\
    (1 <= m)%Q /\
    ((forall d c, In (d, c) (daily_counts r) -> lo <= c <= hi) ->
     (inject_Z lo <= m <= inject_Z hi)%Q).
Proof.
  intro Hne.
  destruct (analyze_merged_site_events p0 ps Hne) as (f & rest & m & Hts & Hm & Hm1 & Hr).
  cbv zeta in Hr, Hm.
  eexists _, m. split; [exact Hr|].
  cbn [median_daily_recordings daily_counts].
  split; [reflexivity|]. split; [exact Hm1|].
  intro Hb.
  set (ts := sorted dt_leb (site_events (p0 :: ps))) in *.
  destruct (np_median_bounds (map (fun kv => inject_Z (snd kv)) (count_daily ts))
              (inject_Z lo) (inject_Z hi)) as (m' & Hm' & Hbm).
  - intro E. apply map_eq_nil in E. revert E. apply count_daily_nonempty.
    rewrite Hts. discriminate.
  - intros x Hx. apply in_map_iff in Hx. destruct Hx as ([d c] & <- & Hin).
    cbn [snd]. rewrite <- !Zle_Qle. now apply (Hb d).
  - rewrite Hm in Hm'. injection Hm' as <-. exact Hbm.
Qed.

Lemma site_median_between_counts_witness :
  exists r m,
    analyze_merged_site
      [mkPath "A1" ["20250601_000000.WAV"; "20250601_000100.WAV";
                    "20250602_000000.WAV"]%string] = Ok r /\
    median_daily_recordings r = Some (Fin m) /\
    (1 <= m)%Q /\
    ((forall d c, In (d, c) (daily_counts r) -> 1 <= c <= 2) ->
     (inject_Z 1 <= m <= inject_Z 2)%Q).
Proof.
  apply (site_median_between_counts
           (mkPath "A1" ["20250601_000000.WAV"; "20250601_000100.WAV";
                         "20250602_000000.WAV"]%string) [] 1 2).
  vm_compute. discriminate.
Defined.

(** * More on merging *)

Lemma dict_append_flat (k : string) (v : Path) (m : list (string * list Path)) :
  Permutation (flat_map snd (dict_append k v m)) (flat_map snd m ++ [v]).
Proof.
  induction m as [|[k' vs] m IH]; cbn [dict_append flat_map snd app].
  - apply Permutation_refl.
  - destruct (String.eqb k' k); cbn [flat_map snd].
    + rewrite <- !app_assoc. apply Permutation_app_head, Permutation_app_comm.
    + rewrite <- app_assoc. now apply Permutation_app_head.
Qed.

Lemma merge_flat (site_dirs : list Path) :
  Permutation (flat_map snd (merge_continuous_deployments site_dirs)) site_dirs.
Proof.
  induction site_dirs as [|d l IH] using rev_ind; [constructor|].
  rewrite merge_snoc. eapply perm_trans; [apply dict_append_flat|].
  now apply Permutation_app_tail.
Qed.

Lemma flat_length_ge {A B : Type} (m : list (A * list B)) :
  Forall (fun kg => snd kg <> []) m ->
  (List.length m <= List.length (flat_map snd m))%nat.
Proof.
  induction 1 as [|[k g] m Hg Hm IH]; [cbn; lia|].
  cbn [flat_map snd List.length] in *. rewrite length_app.
  destruct g; [congruence | cbn [List.length]; lia].
Qed.

(** X7. Merging partitions the folders: the site keys are the base names
    in order of first appearance, the group of a key holds the folders of
    that base name in the order given, no group is empty, and the groups
    together hold every folder exactly once; so there are at most as many
    sites as folders. *)
Theorem merge_partitions_folders (site_dirs : list Path) :
  merge_continuous_deployments site_dirs =
    map (fun k => (k, group_of k site_dirs)) (first_keys site_dirs)
  /\ Forall (fun kg => snd kg <> []) (merge_continuous_deployments site_dirs)
  /\ Permutation (flat_map snd (merge_continuous_deployments site_dirs)) site_dirs
  /\ len (merge_continuous_deployments site_dirs) <= len site_dirs.
Proof.
  assert (Hne : Forall (fun kg => snd kg <> [])
                       (merge_continuous_deployments site_dirs)).
  { apply Forall_forall. intros [k g] Hin.
    now destruct (merge_group_In _ _ _ Hin) as (_ & Hg & _). }
  split; [apply merge_groups|]. split; [exact Hne|].
  split; [apply merge_flat|].
  unfold len. apply inj_le.
  rewrite <- (Permutation_length (merge_flat site_dirs)).
  now apply flat_length_ge.
Qed.

Lemma split_first_app (c : ascii) (k rest : string) :
  str_contains c k = false ->
  split_first c (k ++ String c rest) = k.
Proof.
  induction k as [|a k IH]; cbn [String.append split_first str_contains].
  - now rewrite Ascii.eqb_refl.
  - intro H. apply orb_false_iff in H. destruct H as [Ha Hk].
    rewrite Ha. now rewrite IH.
Qed.

Lemma str_contains_app (c : ascii) (k rest : string) :
  str_contains c (k ++ String c rest) = true.
Proof.
  induction k as [|a k IH]; cbn [String.append str_contains].
  - now rewrite Ascii.eqb_refl.
  - rewrite IH. apply orb_true_r.
Qed.

(** X8. The base name is canonical.  Taking it twice changes nothing, and
    for a name [k] without [-], both [k] and [k] followed by [-] and any
    suffix (itself with or without [-]) have base name [k]. *)
Theorem base_name_is_canonical (k : string) :
  base_name_of (base_name_of k) = base_name_of k
  /\ (str_contains "-" k = false ->
      base_name_of k = k
      /\ forall rest, base_name_of (k ++ String "-" rest) = k).
Proof.
  split.
  - destruct (base_name_of_spec k) as [H _].
    unfold base_name_of at 1. now rewrite H.
  - intro H. split.
    + unfold base_name_of. now rewrite H.
    + intro rest. unfold base_name_of.
      rewrite str_contains_app. now apply split_first_app.
Qed.

Lemma base_name_is_canonical_witness :
  base_name_of "L5" = "L5"%string /\ base_name_of "L5-2-b" = "L5"%string.
Proof.
  destruct (proj2 (base_name_is_canonical "L5") eq_refl) as [H1 H2].
  split; [exact H1 | exact (H2 "2-b"%string)].
Defined.

(** * The analysis does not depend on listing order *)

Lemma dt_le_antisym (a b : datetime) : dt_le a b -> dt_le b a -> a = b.
Proof.
  intros H1 H2.
  destruct a as [ya ma da ha mia sa], b as [yb mb db hb mib sb].
  unfold dt_le, dt_leb, dt_fields, lex_leb in *. cbn in *.
  assert (ya = yb) by lia. subst.
  assert (ma = mb) by lia. subst.
  assert (da = db) by lia. subst.
  assert (ha = hb) by lia. subst.
  assert (mia = mib) by lia. subst.
  assert (sa = sb) by lia. subst.
  reflexivity.
Qed.

Lemma strongly_sorted_perm_eq (l1 l2 : list datetime) :
  StronglySorted dt_le l1 -> StronglySorted dt_le l2 -> Permutation l1 l2 ->
  l1 = l2.
Proof.
  intro H1. revert l2. induction H1 as [|a l1 Hs1 IH Ha]; intros l2 H2 Hp.
  - apply Permutation_nil in Hp. now subst.
  - destruct H2 as [|b l2 Hs2 Hb].
    + apply Permutation_sym, Permutation_nil in Hp. discriminate.
    + assert (E : a = b).
      { rewrite Forall_forall in Ha, Hb.
        assert (Hin_b : In b (a :: l1))
          by (eapply Permutation_in; [apply Permutation_sym, Hp | now left]).
        assert (Hin_a : In a (b :: l2))
          by (eapply Permutation_in; [exact Hp | now left]).
        apply dt_le_antisym.
        - destruct Hin_b as [->|Hin]; [apply dt_le_refl | now apply Ha].
        - destruct Hin_a as [->|Hin]; [apply dt_le_refl | now apply Hb]. }
      subst b. f_equal. apply IH; [exact Hs2|].
      now apply Permutation_cons_inv in Hp.
Qed.

Lemma sorted_unique (l l' : list datetime) :
  Permutation l l' -> sorted dt_leb l = sorted dt_leb l'.
Proof.
  intro Hp. apply strongly_sorted_perm_eq.
  - apply Sorted_StronglySorted; [exact dt_le_trans|].
    apply sorted_Sorted, dt_leb_total.
  - apply Sorted_StronglySorted; [exact dt_le_trans|].
    apply sorted_Sorted, dt_leb_total.
  - eapply perm_trans; [apply Permutation_sym, sorted_perm|].
    eapply perm_trans; [exact Hp | apply sorted_perm].
Qed.

Lemma analyze_determined (p0 : Path) (ps : list Path) (q0 : Path) (qs : list Path) :
  base_name_of (name p0) = base_name_of (name q0) ->
  len (p0 :: ps) = len (q0 :: qs) ->
  Permutation (site_events (p0 :: ps)) (site_events (q0 :: qs)) ->
  len (site_files (p0 :: ps)) = len (site_files (q0 :: qs)) ->
  exists r,
    analyze_merged_site (p0 :: ps) = Ok r /\
    analyze_merged_site (q0 :: qs) = Ok (set_folders (map name (q0 :: qs)) r).
Proof.
  intros Hbase Hn Hp Hfiles.
  pose proof (sorted_unique _ _ Hp) as Hsorted.
  assert (Hlen : len (site_events (p0 :: ps)) = len (site_events (q0 :: qs))).
  { unfold len. f_equal. now apply Permutation_length. }
  destruct (site_events (p0 :: ps)) as [|t0 u] eqn:Ep.
  - apply Permutation_nil in Hp.
    eexists. split; [apply (analyze_merged_site_empty p0 ps Ep)|].
    rewrite (analyze_merged_site_empty q0 qs Hp).
    unfold set_folders.
    cbn [site n_folders n_files invalid_files first_recording last_recording duration_days actual_recordings expected_recordings completeness_pct median_daily_recordings timestamps gaps daily_counts].
    rewrite Hbase, Hfiles, Hn. reflexivity.
  - assert (Hq : site_events (q0 :: qs) <> []).
    { intro E. rewrite E in Hp. apply Permutation_sym, Permutation_nil in Hp.
      discriminate. }
    destruct (analyze_merged_site_events p0 ps) as (f & rest & m & Hts & Hm & _ & Hr).
    { rewrite Ep. discriminate. }
    destruct (analyze_merged_site_events q0 qs Hq)
      as (f' & rest' & m' & Hts' & Hm' & _ & Hr').
    cbv zeta in *. rewrite Ep in *. rewrite <- Hsorted in *.
    rewrite Hts in Hts'. injection Hts' as <- <-.
    rewrite Hm in Hm'. injection Hm' as <-.
    eexists. split; [exact Hr|]. rewrite Hr'.
    unfold set_folders.
    cbn [site n_folders n_files invalid_files first_recording last_recording duration_days actual_recordings expected_recordings completeness_pct median_daily_recordings timestamps gaps daily_counts].
    rewrite Hbase, Hfiles, <- Hlen, Hn. reflexivity.
Qed.

Lemma site_events_perm (ps qs : list Path) :
  Permutation ps qs -> Permutation (site_events ps) (site_events qs).
Proof.
  intro H. unfold site_events. apply Permutation_flat_map.
  eapply perm_trans; [apply Permutation_sym, sorted_perm|].
  eapply perm_trans; [exact H | apply sorted_perm].
Qed.

Lemma site_files_perm (ps qs : list Path) :
  Permutation ps qs -> Permutation (site_files ps) (site_files qs).
Proof.
  intro H. unfold site_files. apply Permutation_flat_map.
  eapply perm_trans; [apply Permutation_sym, sorted_perm|].
  eapply perm_trans; [exact H | apply sorted_perm].
Qed.

(** X9. The order in which the folders of a site are listed matters only
    for the folder list of the result: two orderings of the same folders
    of one site give results that agree in every other field (events,
    counts, gaps, baseline, completeness). *)
Theorem analysis_independent_of_folder_order (p0 : Path) (ps : list Path)
                                             (q0 : Path) (qs : list Path) :
  Permutation (p0 :: ps) (q0 :: qs) ->
  base_name_of (name p0) = base_name_of (name q0) ->
  exists r,
    analyze_merged_site (p0 :: ps) = Ok r /\
    analyze_merged_site (q0 :: qs) = Ok (set_folders (map name (q0 :: qs)) r).
Proof.
  intros Hp Hbase. apply analyze_determined.
  - exact Hbase.
  - unfold len. f_equal. now apply Permutation_length.
  - now apply site_events_perm.
  - unfold len. f_equal. now apply Permutation_length, site_files_perm.
Qed.

Lemma analysis_independent_of_folder_order_witness :
  exists r,
    analyze_merged_site
      [mkPath "L5" ["20250601_060000.WAV"%string];
       mkPath "L5-2" ["20250601_070000.WAV"%string]] = Ok r /\
    analyze_merged_site
      [mkPath "L5-2" ["20250601_070000.WAV"%string];
       mkPath "L5" ["20250601_060000.WAV"%string]]
    = Ok (set_folders ["L5-2"; "L5"]%string r).
Proof.
  apply (analysis_independent_of_folder_order
           (mkPath "L5" ["20250601_060000.WAV"%string])
           [mkPath "L5-2" ["20250601_070000.WAV"%string]]
           (mkPath "L5-2" ["20250601_070000.WAV"%string])
           [mkPath "L5" ["20250601_060000.WAV"%string]]).
  - apply perm_swap.
  - reflexivity.
Defined.

Lemma folder_events_perm (p q : Path) :
  Permutation (folder_files p) (folder_files q) ->
  Permutation (folder_events p) (folder_events q).
Proof. intro H. unfold folder_events, parsed. now apply Permutation_flat_map. Qed.

Lemma flat_map_Forall2_perm {A B : Type} (f : A -> list B) (l l' : list A) :
  Forall2 (fun a b => Permutation (f a) (f b)) l l' ->
  Permutation (flat_map f l) (flat_map f l').
Proof.
  induction 1 as [|a b l l' Hab Hl IH]; [constructor|].
  cbn [flat_map]. now apply Permutation_app.
Qed.

Lemma set_folders_same (r : site_result) :
  set_folders (deployment_folders r) r = r.
Proof. now destruct r. Qed.

(** X10. A folder enters the analysis only through its name and its
    audio files: if two listings have folders of the same names whose
    files ending in [.WAV] or [.wav] are the same up to order, the
    analysis gives the same result; other directory entries, and the
    order of the entries, change nothing. *)
Theorem analysis_depends_on_audio_files_only (p0 : Path) (ps : list Path)
                                             (q0 : Path) (qs : list Path) :
  Forall2 (fun p q => name p = name q /\
                      Permutation (folder_files p) (folder_files q))
          (p0 :: ps) (q0 :: qs) ->
  analyze_merged_site (p0 :: ps) = analyze_merged_site (q0 :: qs).
Proof.
  intro H.
  assert (Hnames : map name (p0 :: ps) = map name (q0 :: qs)).
  { induction H as [|p q l l' [Hn _] _ IH]; [reflexivity|]. cbn [map]. congruence. }
  assert (Hev : Permutation (flat_map folder_events (p0 :: ps))
                            (flat_map folder_events (q0 :: qs))).
  { apply flat_map_Forall2_perm. eapply Forall2_impl; [|exact H].
    intros p q [_ Hf]. now apply folder_events_perm. }
  assert (Hfl : Permutation (flat_map folder_files (p0 :: ps))
                            (flat_map folder_files (q0 :: qs))).
  { apply flat_map_Forall2_perm. eapply Forall2_impl; [|exact H].
    now intros p q [_ Hf]. }
  assert (Hsorted : forall (A : Type) (f : Path -> list A) (l : list Path),
             Permutation (flat_map f (sorted path_leb l)) (flat_map f l)).
  { intros A f l. apply Permutation_flat_map, Permutation_sym, sorted_perm. }
  destruct (analyze_determined p0 ps q0 qs) as (r & Hr & Hr').
  - cbn [map] in Hnames. injection Hnames as Hn _. now rewrite Hn.
  - unfold len. f_equal. apply (f_equal (@List.length string)) in Hnames.
    now rewrite !length_map in Hnames.
  - unfold site_events.
    eapply perm_trans; [apply Hsorted|].
    eapply perm_trans; [exact Hev | apply Permutation_sym, Hsorted].
  - unfold len, site_files. f_equal. apply Permutation_length.
    eapply perm_trans; [apply Hsorted|].
    eapply perm_trans; [exact Hfl | apply Permutation_sym, Hsorted].
  - rewrite Hr, Hr'. f_equal. rewrite <- Hnames.
    assert (Hd : deployment_folders r = map name (p0 :: ps)).
    { destruct (analyze_merged_site_timestamps p0 ps) as (r0 & Hr0 & _).
      destruct (site_events (p0 :: ps)) as [|t0 u] eqn:Ev.
      - rewrite (analyze_merged_site_empty p0 ps Ev) in Hr. now injection Hr as <-.
      - destruct (analyze_merged_site_events p0 ps) as (f & rest & m & _ & _ & _ & Hr1).
        { rewrite Ev. discriminate. }
        cbv zeta in Hr1. rewrite Ev in Hr1. rewrite Hr1 in Hr. now injection Hr as <-. }
    rewrite <- Hd. symmetry. apply set_folders_same.
Qed.

Lemma analysis_depends_on_audio_files_only_witness :
  analyze_merged_site
    [mkPath "A1" ["20250601_060000.WAV"; "notes.txt"; "20250601_070000.wav"]%string]
  = analyze_merged_site
      [mkPath "A1" ["20250601_060000.WAV"; "20250601_070000.wav"; "CONFIG.TXT"]%string].
Proof.
  apply analysis_depends_on_audio_files_only.
  repeat constructor.
Defined.

(** * The whole run, again *)

Lemma site_step_line (p0 : Path) (ps : list Path) :
  site_events (p0 :: ps) <> [] ->
  exists r pct,
    site_step (p0 :: ps) =
      Ok (r, mkline (site r) (deployment_folders r) (n_files r) (Percent pct)
                    (len (gaps r))) /\
    with_events r /\ (0 < pct)%Q /\
    site r = base_name_of (name p0) /\
    actual_recordings r = len (timestamps r) /\
    n_folders r = len (p0 :: ps).
Proof.
  intro Hne.
  destruct (site_step_events p0 ps Hne) as (r0 & line0 & _ & Hr0 & Hw).
  destruct (analyze_merged_site_events p0 ps Hne)
    as (first_rec & rest & m & Hts & _ & _ & Hr).
  cbv zeta in Hr. rewrite Hr in Hr0. injection Hr0 as <-.
  set (ts := sorted dt_leb (site_events (p0 :: ps))) in *.
  assert (Hactual : 0 < len ts).
  { rewrite Hts. unfold len. cbn [List.length]. lia. }
  pose proof (completeness_of_pos (len ts)
                (trunc (m * elapsed_days first_rec (last ts first_rec))) Hactual) as Hpct.
  eexists _, _. split.
  { unfold site_step. rewrite Hr. cbn [bind completeness_pct getitem].
    destruct (Qle_bool _ 0) eqn:E; [apply Qle_bool_iff in E; lra|].
    cbn [negb]. reflexivity. }
  split; [exact Hw|]. split; [exact Hpct|]. repeat split.
Qed.

Lemma run_shape (site_dirs : list Path) :
  all_sites_have_events site_dirs ->
  exists steps summary stats,
    Forall2 step_of (sorted_items site_dirs) steps /\
    Forall2 (fun r row => summary_of r = Ok row) (map fst steps) summary /\
    global_statistics (map fst steps)
      (len (merge_continuous_deployments site_dirs)) (len site_dirs)
      (len (flat_map gap_rows_of (map fst steps))) = Ok stats /\
    (map fst steps = [] -> stats = None) /\
    analyze_all_sites (Some site_dirs) =
      Ok (Some (mkreport (map snd steps) (map fst steps) summary
                         (flat_map gap_rows_of (map fst steps))
                         (create_daily_heatmap_data (map fst steps)) stats)).
Proof.
  intro Hev.
  assert (Hstep : forall item, In item (sorted_items site_dirs) ->
                               exists y, step_of item y).
  { intros [k g] Hin. unfold sorted_items in Hin. apply items_In in Hin.
    destruct (merge_group_In _ _ _ Hin) as (_ & Hne & Hmem).
    destruct g as [|p0 ps]; [congruence|].
    destruct (site_step_line p0 ps (Hev _ _ Hin))
      as (r & pct & Hs & Hw & Hp & Hsite & Hact & Hn).
    eexists (r, _). unfold step_of. cbn [fst snd].
    split; [exact Hs|]. split; [exact Hw|].
    split; [rewrite Hsite; apply (Hmem p0); now left|].
    split; [exact Hact|]. split; [exact Hn|].
    exists pct. now split. }
  assert (Hsteps : exists steps, Forall2 step_of (sorted_items site_dirs) steps).
  { induction (sorted_items site_dirs) as [|item items IH].
    - exists []. constructor.
    - destruct (Hstep item (or_introl eq_refl)) as [y Hy].
      destruct IH as [ys Hys]; [intros it Hit; apply Hstep; now right|].
      exists (y :: ys). now constructor. }
  destruct Hsteps as [steps Hall].
  assert (Hfor : for_each (fun item => site_step (snd item)) (sorted_items site_dirs)
                 = Ok steps).
  { clear Hstep. induction Hall as [|item y items ys Hy Hall IH]; [reflexivity|].
    cbn [for_each]. destruct Hy as [Hy _]. rewrite Hy, IH. reflexivity. }
  assert (Hgood : Forall with_events (map fst steps)).
  { clear Hfor Hstep. induction Hall as [|item y items ys Hy Hall IH];
      [constructor|].
    cbn [map]. constructor; [now destruct Hy as (_ & Hw & _) | exact IH]. }
  destruct (for_each_Ok summary_of (map fst steps)) as (summary & Hsum & Hsum2).
  { intros r Hr. rewrite Forall_forall in Hgood.
    now apply summary_of_with_events, Hgood. }
  assert (Hstats : exists stats,
             global_statistics (map fst steps)
               (len (merge_continuous_deployments site_dirs)) (len site_dirs)
               (len (flat_map gap_rows_of (map fst steps))) = Ok stats /\
             (map fst steps = [] -> stats = None)).
  { destruct (map fst steps) as [|r0 rs] eqn:E.
    - exists None. split; [reflexivity | reflexivity].
    - destruct (global_statistics_with_events (r0 :: rs)
                  (len (merge_continuous_deployments site_dirs)) (len site_dirs)
                  (len (flat_map gap_rows_of (r0 :: rs))) Hgood
                  ltac:(discriminate) (len_nonneg _)) as (g & _ & _ & Hg & _).
      exists (Some g). split; [exact Hg | discriminate]. }
  destruct Hstats as (stats & Hstats & Hnone).
  exists steps, summary, stats.
  split; [exact Hall|]. split; [exact Hsum2|]. split; [exact Hstats|].
  split; [exact Hnone|].
  unfold analyze_all_sites. fold (sorted_items site_dirs).
  rewrite Hfor. cbn [bind]. rewrite Hsum. cbn [bind]. rewrite Hstats. reflexivity.
Qed.

Lemma run_aborts (site_dirs : list Path) (k : string) (g : list Path) :
  In (k, g) (merge_continuous_deployments site_dirs) ->
  site_events g = [] ->
  analyze_all_sites (Some site_dirs) = Raise (KeyError "completeness_pct").
Proof.
  intros Hin Hev.
  destruct (merge_group_In _ _ _ Hin) as (_ & Hne & _).
  destruct g as [|p0 ps]; [congruence|].
  unfold analyze_all_sites.
  rewrite (for_each_Raise _ _ (KeyError "completeness_pct") (k, p0 :: ps)).
  - reflexivity.
  - now apply items_In.
  - now apply site_step_empty.
  - intros [k' g'] Hz. apply items_In in Hz.
    destruct (merge_group_In _ _ _ Hz) as (_ & Hne' & _).
    destruct g' as [|q0 qs]; [congruence|]. cbn [snd].
    destruct (site_events (q0 :: qs)) as [|t0 u] eqn:Ev.
    + left. now apply site_step_empty.
    + right. destruct (site_step_events q0 qs) as (r & line & Hs & _).
      { rewrite Ev. discriminate. }
      now exists (r, line).
Qed.

Lemma sites_with_events_dec (m : list (string * list Path)) :
  (forall k g, In (k, g) m -> site_events g <> [])
  \/ exists k g, In (k, g) m /\ site_events g = [].
Proof.
  induction m as [|[k g] m IH].
  - left. intros k g [].
  - destruct (site_events g) as [|t0 u] eqn:Ev.
    + right. exists k, g. split; [now left | exact Ev].
    + destruct IH as [IH | (k' & g' & Hin & E)].
      * left. intros k' g' [H|H]; [|exact (IH k' g' H)].
        inversion H; subst. rewrite Ev. discriminate.
      * right. exists k', g'. split; [now right | exact E].
Qed.

(** X11. The outcome of a run over an existing directory is one of two:
    when every merged site has a valid event it returns its report, and
    every printed site line then shows a positive percentage, never the
    not-applicable text; when some merged site has no valid event it
    raises [KeyError] for [completeness_pct].  No other exception (index,
    value, division by zero) can escape. *)
Theorem run_outcome (site_dirs : list Path) :
  (all_sites_have_events site_dirs /\
   exists rep,
     analyze_all_sites (Some site_dirs) = Ok (Some rep) /\
     Forall (fun l => exists pct, line_completeness l = Percent pct /\ (0 < pct)%Q)
            (printed rep))
  \/ ((exists k g, In (k, g) (merge_continuous_deployments site_dirs) /\
                   site_events g = []) /\
      analyze_all_sites (Some site_dirs) = Raise (KeyError "completeness_pct")).
Proof.
  destruct (sites_with_events_dec (merge_continuous_deployments site_dirs))
    as [Hall | (k & g & Hin & E)].
  - left. split; [exact Hall|].
    destruct (run_shape site_dirs Hall) as (steps & summary & stats & Hsteps & _ & _ & _ & Hrun).
    eexists. split; [exact Hrun|]. cbn [printed].
    clear Hrun. induction Hsteps as [|item y items ys Hy _ IH]; [constructor|].
    cbn [map]. constructor; [|exact IH].
    destruct Hy as (_ & _ & _ & _ & _ & pct & Hp & ->).
    exists pct. now split.
  - right. split; [now exists k, g|]. now apply (run_aborts site_dirs k g).
Qed.

Lemma site_step_inv (site_paths : list Path) (r : site_result) (line : site_line) :
  site_step site_paths = Ok (r, line) -> analyze_merged_site site_paths = Ok r.
Proof.
  unfold site_step. destruct (analyze_merged_site site_paths) as [r0|e];
    [|discriminate].
  cbn [bind]. destruct (getitem _ _) as [pct|e]; [|discriminate].
  cbn [bind]. now intros [= <- _].
Qed.

Lemma analyze_counts (site_paths : list Path) (r : site_result) :
  analyze_merged_site site_paths = Ok r ->
  n_files r = actual_recordings r + invalid_files r.
Proof.
  destruct site_paths as [|p0 ps]; [discriminate|]. intro Hr.
  assert (Hdec : site_events (p0 :: ps) = [] \/ site_events (p0 :: ps) <> [])
    by (destruct (site_events (p0 :: ps)); [now left | right; discriminate]).
  destruct Hdec as [Ev|Hne].
  - rewrite (analyze_merged_site_empty p0 ps Ev) in Hr. injection Hr as <-.
    cbn [n_files actual_recordings invalid_files]. lia.
  - destruct (analyze_merged_site_events p0 ps Hne) as (f & rest & m & _ & _ & _ & Hr').
    cbv zeta in Hr'.
    set (ts := sorted dt_leb (site_events (p0 :: ps))) in *.
    rewrite Hr' in Hr. injection Hr as <-.
    cbn [n_files actual_recordings invalid_files].
    assert (Hlen : len ts = len (site_events (p0 :: ps))).
    { unfold len, ts. now rewrite (sorted_length dt_leb). }
    lia.
Qed.

Lemma summary_of_fields (r : site_result) (row : summary_row) :
  summary_of r = Ok row ->
  Site row = site r /\ Deployment_Folders row = deployment_folders r /\
  Total_Files row = n_files r /\ Invalid_Files row = invalid_files r /\
  Valid_Recordings row = actual_recordings r /\
  expected_recordings r = Some (Expected_Recordings row) /\
  First_Recording row = first_recording r /\ Last_Recording row = last_recording r /\
  N_Gaps_10min row = len (gaps r).
Proof.
  unfold summary_of.
  destruct (expected_recordings r) as [e|]; [|discriminate].
  destruct (completeness_pct r) as [pct|]; [|discriminate].
  destruct (median_daily_recordings r) as [m|]; [|discriminate].
  cbn [getitem bind]. destruct (py_int m) as [mi|ex]; [|discriminate].
  cbn [bind]. intros [= <-]. repeat split.
Qed.

Lemma fold_left_add (l : list Z) (a : Z) : fold_left Z.add l a = a + sumZ l.
Proof.
  revert a; induction l as [|x l IH]; intro a; cbn [fold_left].
  - cbn. lia.
  - rewrite IH, sumZ_cons. lia.
Qed.

Lemma len_flat_map {A B : Type} (f : A -> list B) (l : list A) :
  len (flat_map f l) = sumZ (map (fun x => len (f x)) l).
Proof.
  induction l as [|x l IH]; [reflexivity|].
  cbn [flat_map map]. rewrite len_app, sumZ_cons, IH. reflexivity.
Qed.

Lemma global_statistics_fields (rs : list site_result) (n nd ng : Z) (g : global_stats) :
  global_statistics rs n nd ng = Ok (Some g) ->
  Unique_Sites g = n /\ Deployment_Folder_Count g = nd /\ Total_Gaps_10min g = ng /\
  Invalid_Timestamps g = sumZ (map invalid_files rs) /\
  Global_Valid_Recordings g = len (flat_map timestamps rs).
Proof.
  unfold global_statistics.
  destruct (flat_map timestamps rs) as [|t0 u] eqn:E; [discriminate|].
  assert (Hlen : len (sorted dt_leb (t0 :: u)) = len (t0 :: u)).
  { unfold len. now rewrite (sorted_length dt_leb). }
  remember (sorted dt_leb (t0 :: u)) as all_ts eqn:Eall.
  destruct (positive_medians rs) as [ms|ex]; [|discriminate].
  cbn [bind]. destruct (py_int _) as [e|ex]; [|discriminate].
  cbn [bind].
  destruct (0 <? e).
  - destruct (truediv _ e) as [q|ex]; [|discriminate].
    cbn [bind]. intros [= <-].
    cbn [Unique_Sites Deployment_Folder_Count Total_Gaps_10min Invalid_Timestamps
         Global_Valid_Recordings].
    rewrite fold_left_add, Hlen. repeat split.
  - cbn [bind]. intros [= <-].
    cbn [Unique_Sites Deployment_Folder_Count Total_Gaps_10min Invalid_Timestamps
         Global_Valid_Recordings].
    rewrite fold_left_add, Hlen. repeat split.
Qed.

Lemma Forall2_map_eq {A B C : Type} (R : A -> B -> Prop) (f : A -> C) (g : B -> C)
      (l : list A) (l' : list B) :
  Forall2 R l l' -> (forall a b, R a b -> f a = g b) -> map f l = map g l'.
Proof.
  intros H Hfg. induction H as [|a b l l' Hab _ IH]; [reflexivity|].
  cbn [map]. now rewrite (Hfg a b Hab), IH.
Qed.

(** X12. The tables of a run that returns agree with each other.  There is
    one site result, one printed line and one summary row per merged site,
    in ascending order of site name; every summary row splits its scanned
    files into valid and invalid ones; the gap table has as many rows as
    the summary rows count gaps; the folders of all sites add up to the
    folders of the directory; and the global summary, when there is one,
    totals the summary rows: valid recordings, invalid files, gaps, folders
    and sites. *)
Theorem report_is_consistent (site_dirs : list Path) :
  all_sites_have_events site_dirs ->
  exists rep,
    analyze_all_sites (Some site_dirs) = Ok (Some rep) /\
    map site (site_results rep) = map fst (sorted_items site_dirs) /\
    Sorted (fun a b => String.leb a b = true) (map site (site_results rep)) /\
    map line_site (printed rep) = map site (site_results rep) /\
    map line_files (printed rep) = map n_files (site_results rep) /\
    map Site (summary_df rep) = map site (site_results rep) /\
    map Total_Files (summary_df rep) = map n_files (site_results rep) /\
    Forall (fun row => Total_Files row = Valid_Recordings row + Invalid_Files row)
           (summary_df rep) /\
    len (gaps_df rep) = sumZ (map N_Gaps_10min (summary_df rep)) /\
    sumZ (map n_folders (site_results rep)) = len site_dirs /\
    forall g, global_summary rep = Some g ->
      Unique_Sites g = len (summary_df rep) /\
      Deployment_Folder_Count g = len site_dirs /\
      Global_Valid_Recordings g = sumZ (map Valid_Recordings (summary_df rep)) /\
      Invalid_Timestamps g = sumZ (map Invalid_Files (summary_df rep)) /\
      Total_Gaps_10min g = len (gaps_df rep).
Proof.
  intro Hall.
  destruct (run_shape site_dirs Hall)
    as (steps & summary & stats & Hsteps & Hsum & Hstats & _ & Hrun).
  eexists. split; [exact Hrun|].
  cbn [site_results printed summary_df gaps_df global_summary].
  assert (Hsites : map site (map fst steps) = map fst (sorted_items site_dirs)).
  { rewrite map_map. symmetry.
    apply (Forall2_map_eq step_of _ _ _ _ Hsteps).
    intros item y (_ & _ & Hs & _). now rewrite Hs. }
  assert (Hline_site : map line_site (map snd steps) = map site (map fst steps)).
  { rewrite !map_map. clear - Hsteps.
    induction Hsteps as [|item y items ys Hy _ IH]; [reflexivity|].
    cbn [map]. rewrite IH. f_equal.
    destruct Hy as (_ & _ & _ & _ & _ & pct & _ & ->). reflexivity. }
  assert (Hline_files : map line_files (map snd steps) = map n_files (map fst steps)).
  { rewrite !map_map. clear - Hsteps.
    induction Hsteps as [|item y items ys Hy _ IH]; [reflexivity|].
    cbn [map]. rewrite IH. f_equal.
    destruct Hy as (_ & _ & _ & _ & _ & pct & _ & ->). reflexivity. }
  assert (Hsum_site : map Site summary = map site (map fst steps)).
  { symmetry. apply (Forall2_map_eq _ _ _ _ _ Hsum).
    intros r row H. now destruct (summary_of_fields r row H) as (-> & _). }
  assert (Hsum_files : map Total_Files summary = map n_files (map fst steps)).
  { symmetry. apply (Forall2_map_eq _ _ _ _ _ Hsum).
    intros r row H. now destruct (summary_of_fields r row H) as (_ & _ & -> & _). }
  assert (Hsum_valid : map Valid_Recordings summary
                       = map actual_recordings (map fst steps)).
  { symmetry. apply (Forall2_map_eq _ _ _ _ _ Hsum).
    intros r row H. now destruct (summary_of_fields r row H) as (_ & _ & _ & _ & -> & _). }
  assert (Hsum_invalid : map Invalid_Files summary = map invalid_files (map fst steps)).
  { symmetry. apply (Forall2_map_eq _ _ _ _ _ Hsum).
    intros r row H. now destruct (summary_of_fields r row H) as (_ & _ & _ & -> & _). }
  assert (Hsum_gaps : map N_Gaps_10min summary
                      = map (fun r => len (gaps r)) (map fst steps)).
  { symmetry. apply (Forall2_map_eq _ _ _ _ _ Hsum).
    intros r row H.
    now destruct (summary_of_fields r row H) as (_ & _ & _ & _ & _ & _ & _ & _ & ->). }
  assert (Hgaps_len : len (flat_map gap_rows_of (map fst steps))
                      = sumZ (map N_Gaps_10min summary)).
  { rewrite Hsum_gaps, len_flat_map. f_equal. apply map_ext.
    intro r. unfold gap_rows_of, len. now rewrite length_map. }
  assert (Hactual : map actual_recordings (map fst steps)
                    = map (fun r => len (timestamps r)) (map fst steps)).
  { rewrite !map_map. clear - Hsteps.
    induction Hsteps as [|item y items ys Hy _ IH]; [reflexivity|].
    cbn [map]. rewrite IH. f_equal. now destruct Hy as (_ & _ & _ & -> & _). }
  assert (Hfolders : sumZ (map n_folders (map fst steps)) = len site_dirs).
  { assert (E : map n_folders (map fst steps)
                = map (fun item => len (snd item)) (sorted_items site_dirs)).
    { rewrite map_map. symmetry.
      apply (Forall2_map_eq step_of _ _ _ _ Hsteps).
      intros item y (_ & _ & _ & _ & Hn & _). now rewrite Hn. }
    rewrite E, <- len_flat_map. unfold len. f_equal.
    apply Permutation_length.
    eapply perm_trans; [|apply merge_flat].
    apply Permutation_flat_map, Permutation_sym. unfold sorted_items.
    apply sorted_perm. }
  split; [exact Hsites|].
  split.
  { rewrite Hsites. unfold sorted_items.
    set (m := merge_continuous_deployments site_dirs).
    assert (Hs : Sorted (fun a b : string * list Path =>
                           String.leb (fst a) (fst b) = true)
                        (sorted (fun a b => String.leb (fst a) (fst b)) m)).
    { apply sorted_Sorted. intros x y H.
      destruct (String.leb_total (fst x) (fst y)); congruence. }
    induction Hs as [|a l _ IH Hhd]; [constructor|].
    cbn [map]. constructor; [exact IH|].
    destruct Hhd; cbn [map]; constructor. assumption. }
  split; [exact Hline_site|]. split; [exact Hline_files|].
  split; [exact Hsum_site|]. split; [exact Hsum_files|].
  split.
  { assert (Hcounts : Forall (fun r => n_files r = actual_recordings r + invalid_files r)
                              (map fst steps)).
    { clear - Hsteps. induction Hsteps as [|item y items ys Hy _ IH]; [constructor|].
      cbn [map]. constructor; [|exact IH].
      destruct y as [r line]. destruct Hy as (Hs & _). cbn [fst snd] in *.
      now apply (analyze_counts (snd item)), (site_step_inv _ _ line). }
    clear - Hsum Hcounts.
    induction Hsum as [|r row rs rows Hrow _ IH]; [constructor|].
    inversion Hcounts as [|? ? Hr Hrs]; subst.
    constructor; [|now apply IH].
    now destruct (summary_of_fields _ _ Hrow) as (_ & _ & -> & -> & -> & _). }
  split; [exact Hgaps_len|]. split; [exact Hfolders|].
  intros g Hg. subst stats.
  destruct (global_statistics_fields _ _ _ _ _ Hstats) as (Hu & Hd & Ht & Hi & Hv).
  split.
  { rewrite Hu. unfold len. f_equal.
    rewrite <- (length_map Site summary), Hsum_site, !length_map.
    rewrite <- (length_map fst steps), <- (length_map site (map fst steps)), Hsites.
    rewrite length_map. unfold sorted_items. symmetry. apply sorted_length. }
  split; [exact Hd|].
  split; [rewrite Hv, len_flat_map, Hsum_valid, Hactual; reflexivity|].
  split; [rewrite Hi, Hsum_invalid; reflexivity|].
  exact Ht.
Qed.

(** * Reading the heatmap table back *)

Lemma strptime_ymd_strftime (d : date) :
  1 <= dyear d <= 9999 -> valid_date d ->
  strptime_ymd (strftime_ymd d) = Ok (mkdt (dyear d) (dmonth d) (dday d) 0 0 0).
Proof.
  intros Hy [Hm Hd].
  pose proof (days_in_month_pos (dyear d) (dmonth d)) as Hdim.
  unfold strptime_ymd, re_matches_ymd, strftime_ymd.
  rewrite re_Y_four by lia. cbn [flat_map re_lit]. rewrite Ascii.eqb_refl.
  cbn [flat_map]. rewrite !app_nil_r.
  match goal with |- context [re_m (two_digits (dmonth d) ?r)] =>
    destruct (re_m_head (dmonth d) r Hm) as [l1 ->] end.
  cbn [flat_map re_lit]. rewrite Ascii.eqb_refl. cbn [flat_map]. rewrite app_nil_r.
  destruct (re_d_head (dday d) EmptyString ltac:(lia)) as [l2 ->].
  cbn [map app].
  assert (V : valid_datetime (mkdt (dyear d) (dmonth d) (dday d) 0 0 0) = true).
  { unfold valid_datetime, between. cbn [year month day hour minute second].
    rewrite !andb_true_iff, !Z.leb_le. lia. }
  now rewrite V.
Qed.

(** X13. The date labels written by the heatmap table builder are read
    back by the plotting script as the same dates: for calendar dates with
    a four-digit year, parsing the labels of a list of dates with
    [%Y-%m-%d] returns those dates, at midnight, in the same order. *)
Theorem date_labels_round_trip (dates : list date) :
  Forall (fun d => 1000 <= dyear d <= 9999 /\ valid_date d) dates ->
  read_date_columns (map strftime_ymd dates)
  = Ok (map (fun d => mkdt (dyear d) (dmonth d) (dday d) 0 0 0) dates).
Proof.
  unfold read_date_columns.
  induction 1 as [|d l [Hy Hv] _ IH]; [reflexivity|].
  cbn [map for_each]. rewrite strptime_ymd_strftime by (auto; lia).
  cbn [bind]. rewrite IH. reflexivity.
Qed.

Lemma date_labels_round_trip_witness :
  read_date_columns ["2025-06-01"; "2025-12-31"]%string
  = Ok [mkdt 2025 6 1 0 0 0; mkdt 2025 12 31 0 0 0].
Proof.
  apply (date_labels_round_trip [mkdate 2025 6 1; mkdate 2025 12 31]).
  repeat constructor; cbn; lia.
Defined.

(** * Month ticks of the figure *)

Lemma month_loop_spec (ds : list datetime) (i : Z) (ticks : list Z)
      (labels : list string) (bounds : list Q) (prev : datetime) :
  month_loop i ds (ticks, labels, bounds, month prev) =
  (ticks ++ map fst (month_changes i prev ds),
   labels ++ map (fun c => month_abbr (month (snd c))) (month_changes i prev ds),
   bounds ++ map (fun c => Qminus (inject_Z (fst c)) half) (month_changes i prev ds),
   month (last ds prev)).
Proof.
  revert i ticks labels bounds prev.
  induction ds as [|d ds IH]; intros i ticks labels bounds prev.
  - cbn. now rewrite !app_nil_r.
  - cbn [month_loop month_changes].
    assert (Hlast : last (d :: ds) prev = last ds d).
    { destruct ds as [|d' ds']; [reflexivity|].
      change (last (d :: d' :: ds') prev) with (last (d' :: ds') prev).
      apply last_cons_default. }
    rewrite Hlast.
    destruct (Z.eqb_spec (month d) (month prev)) as [E|Hne]; cbn [negb app].
    + rewrite <- E. apply IH.
    + rewrite IH. cbn [map fst snd app]. now rewrite <- !app_assoc.
Qed.

Lemma month_changes_In (ds : list datetime) (i : Z) (prev : datetime)
      (idx : Z) (d : datetime) :
  In (idx, d) (month_changes i prev ds) <->
  exists k, (k < List.length ds)%nat /\ idx = i + Z.of_nat k /\
            nth k ds prev = d /\ month d <> month (nth k (prev :: ds) prev).
Proof.
  revert i prev. induction ds as [|d1 ds IH]; intros i prev.
  - cbn. split; [intros [] | intros (k & Hk & _); lia].
  - cbn [month_changes]. rewrite in_app_iff, IH. split.
    + intros [H | (k & Hk & Hidx & Hnth & Hm)].
      * destruct (Z.eqb_spec (month d1) (month prev)) as [E|Hne]; [contradiction|].
        destruct H as [H|[]]. inversion H; subst.
        exists 0%nat. cbn [List.length nth]. repeat split; [lia | lia | exact Hne].
      * exists (S k). cbn [List.length]. split; [lia|]. split; [lia|].
        change (nth (S k) (d1 :: ds) prev) with (nth k ds prev).
        change (nth (S k) (prev :: d1 :: ds) prev) with (nth k (d1 :: ds) prev).
        split; [rewrite (nth_indep ds prev d1 Hk); exact Hnth|].
        rewrite (nth_indep (d1 :: ds) prev d1) by (cbn; lia). exact Hm.
    + intros (k & Hk & Hidx & Hnth & Hm). destruct k as [|k].
      * left. cbn [nth] in *. subst d.
        destruct (Z.eqb_spec (month d1) (month prev)) as [E|Hne]; [contradiction|].
        left. f_equal. lia.
      * right. cbn [List.length] in *. exists k.
        change (nth (S k) (d1 :: ds) prev) with (nth k ds prev) in Hnth.
        change (nth (S k) (prev :: d1 :: ds) prev) with (nth k (d1 :: ds) prev) in Hm.
        split; [lia|]. split; [lia|].
        assert (Hk' : (k < List.length ds)%nat) by lia.
        split; [rewrite (nth_indep ds d1 prev Hk'); exact Hnth|].
        rewrite (nth_indep (d1 :: ds) d1 prev) by (cbn; lia). exact Hm.
Qed.

Lemma month_changes_sorted (ds : list datetime) (i : Z) (prev : datetime) :
  StronglySorted Z.lt (map fst (month_changes i prev ds))
  /\ Forall (fun t => i <= t < i + len ds) (map fst (month_changes i prev ds)).
Proof.
  revert i prev. induction ds as [|d ds IH]; intros i prev.
  - cbn. split; constructor.
  - cbn [month_changes]. destruct (IH (i + 1) d) as [Hs Hr].
    assert (Hr' : Forall (fun t => i + 1 <= t < i + len (d :: ds))
                         (map fst (month_changes (i + 1) d ds))).
    { eapply Forall_impl; [|exact Hr]. intros t Ht. cbv beta in *.
      unfold len in *. cbn [List.length]. lia. }
    destruct (month d =? month prev); cbn [app map fst].
    + split; [exact Hs|]. eapply Forall_impl; [|exact Hr'].
      intros t Ht. cbv beta in *. lia.
    + split.
      * constructor; [exact Hs|]. eapply Forall_impl; [|exact Hr'].
        intros t Ht. cbv beta in *. lia.
      * constructor.
        -- pose proof (len_nonneg ds). unfold len in *. cbn [List.length]. lia.
        -- eapply Forall_impl; [|exact Hr']. intros t Ht. cbv beta in *. lia.
Qed.

(** X14. Month ticks.  For a non-empty list of dates the ticks start with
    0 and are, besides 0, exactly the positions whose month differs from
    that of the date before; they are strictly increasing and lie inside
    the list; there is one label per tick, the month name of the date at
    the tick, and one boundary per tick after the first, half a position
    before it.  An empty list raises [IndexError]. *)
Theorem month_ticks_at_month_changes (d0 : datetime) (rest : list datetime) :
  compute_month_info [] = Raise IndexError /\
  exists ticks labels boundaries,
    compute_month_info (d0 :: rest) = Ok (ticks, labels, boundaries) /\
    hd_error ticks = Some 0 /\
    StronglySorted Z.lt ticks /\
    Forall (fun t => 0 <= t < len (d0 :: rest)) ticks /\
    (forall k, (1 <= k < List.length (d0 :: rest))%nat ->
       (In (Z.of_nat k) ticks <->
        month (nth k (d0 :: rest) d0) <> month (nth (k - 1) (d0 :: rest) d0))) /\
    labels = map (fun t => month_abbr (month (nth (Z.to_nat t) (d0 :: rest) d0))) ticks /\
    boundaries = map (fun t => Qminus (inject_Z t) half) (tl ticks).
Proof.
  split; [reflexivity|].
  unfold compute_month_info. rewrite month_loop_spec.
  set (ch := month_changes 1 d0 rest).
  destruct (month_changes_sorted rest 1 d0) as [Hs Hr]. fold ch in Hs, Hr.
  eexists _, _, _. split; [reflexivity|].
  cbn [app hd_error tl].
  split; [reflexivity|].
  split.
  { constructor; [exact Hs|]. eapply Forall_impl; [|exact Hr].
    intros t Ht. cbv beta in Ht. lia. }
  split.
  { constructor.
    - pose proof (len_nonneg rest). unfold len in *. cbn [List.length]. lia.
    - eapply Forall_impl; [|exact Hr]. intros t Ht. cbv beta in *.
      unfold len in *. cbn [List.length]. lia. }
  split.
  { intros k Hk. cbn [List.length] in Hk. cbn [In]. split.
    - intros [H|H]; [lia|].
      apply in_map_iff in H. destruct H as ([idx d] & E & Hin). cbn [fst] in E. subst idx.
      apply month_changes_In in Hin. destruct Hin as (j & Hj & Hidx & Hnth & Hm).
      assert (k = S j) by lia. subst k.
      replace (S j - 1)%nat with j by lia.
      change (nth (S j) (d0 :: rest) d0) with (nth j rest d0).
      rewrite Hnth. exact Hm.
    - intro Hm. right. destruct k as [|j]; [lia|].
      replace (S j - 1)%nat with j in Hm by lia.
      change (nth (S j) (d0 :: rest) d0) with (nth j rest d0) in Hm.
      apply in_map_iff. exists (Z.of_nat (S j), nth j rest d0). split; [reflexivity|].
      apply month_changes_In. exists j.
      split; [lia|]. split; [lia|]. split; [reflexivity | exact Hm]. }
  split.
  { cbn [map]. f_equal. rewrite map_map. apply map_ext_in.
    intros [idx d] Hin. cbn [fst snd].
    apply month_changes_In in Hin. destruct Hin as (j & Hj & Hidx & Hnth & _).
    subst idx. replace (Z.to_nat (1 + Z.of_nat j)) with (S j) by lia.
    change (nth (S j) (d0 :: rest) d0) with (nth j rest d0). now rewrite Hnth. }
  now rewrite map_map.
Qed.

(** * Colour bins of the figure *)

Lemma Zleb_total (x y : Z) : (x <=? y) = false -> (y <=? x) = true.
Proof. rewrite Z.leb_gt, Z.leb_le. lia. Qed.

Lemma sorted_nodup_strict (l : list Z) :
  NoDup l -> StronglySorted Z.lt (sorted Z.leb l).
Proof.
  intro Hnd.
  assert (Hs : StronglySorted (fun x y => (x <=? y) = true) (sorted Z.leb l)).
  { apply Sorted_StronglySorted.
    - intros x y z. rewrite !Z.leb_le. lia.
    - apply sorted_Sorted, Zleb_total. }
  assert (Hnd' : NoDup (sorted Z.leb l))
    by (eapply Permutation_NoDup; [apply sorted_perm | exact Hnd]).
  induction Hs as [|x s Hs IH Hall]; [constructor|].
  inversion Hnd' as [|? ? Hx Hrest]; subst.
  constructor; [now apply IH|].
  rewrite Forall_forall in *. intros y Hy.
  specialize (Hall y Hy). apply Z.leb_le in Hall.
  assert (x <> y) by (intros ->; contradiction). lia.
Qed.

Lemma strict_sorted_NoDup (l : list Z) : StronglySorted Z.lt l -> NoDup l.
Proof.
  induction 1 as [|x l Hs IH Hall]; constructor; [|exact IH].
  intro Hin. rewrite Forall_forall in Hall. specialize (Hall x Hin). lia.
Qed.

Lemma np_unique_spec (l : list Z) :
  StronglySorted Z.lt (np_unique l) /\ forall x, In x (np_unique l) <-> In x l.
Proof.
  unfold np_unique. split.
  - apply sorted_nodup_strict, NoDup_nodup.
  - intro x. rewrite <- (nodup_In Z.eq_dec l x). split; apply Permutation_in;
      [apply Permutation_sym|]; apply sorted_perm.
Qed.

Lemma bin_bounds_cons (c : Z) (cs : list Z) :
  bin_bounds (c :: cs) = Qminus (inject_Z c) half :: upper_bounds c cs.
Proof.
  unfold bin_bounds. cbn [hd app]. f_equal.
  change (List.length (c :: cs) - 1)%nat with (List.length cs - 0)%nat.
  rewrite Nat.sub_0_r.
  revert c. induction cs as [|c' cs IH]; intro c; [reflexivity|].
  cbn [List.length seq map upper_bounds app]. f_equal.
  rewrite <- (IH c'). f_equal.
  rewrite <- seq_shift, map_map. apply map_ext_in.
  intros i Hi. apply in_seq in Hi.
  destruct i as [|j]; [lia|].
  replace (S (S j) - 1)%nat with (S j) by lia.
  replace (S j - 1)%nat with j by lia. reflexivity.
Qed.

Lemma midpoint_between (a b : Z) :
  a < b -> (inject_Z a < midpoint a b /\ midpoint a b < inject_Z b)%Q.
Proof.
  intro H. unfold midpoint. rewrite inject_Z_plus.
  assert (Hq : (inject_Z a < inject_Z b)%Q) by now rewrite <- Zlt_Qlt.
  split.
  - apply Qlt_shift_div_l; [reflexivity | lra].
  - apply Qlt_shift_div_r; [reflexivity | lra].
Qed.

Lemma upper_bounds_length (c : Z) (cs : list Z) :
  List.length (upper_bounds c cs) = S (List.length cs).
Proof. revert c; induction cs as [|c' cs IH]; intro c; cbn; [|rewrite IH]; reflexivity. Qed.

Lemma upper_bounds_sorted (c : Z) (cs : list Z) (lo : Q) :
  StronglySorted Z.lt (c :: cs) -> (lo < inject_Z c)%Q ->
  Sorted Qlt (lo :: upper_bounds c cs).
Proof.
  revert c lo. induction cs as [|c' cs IH]; intros c lo Hs Hlo.
  - cbn. repeat constructor. unfold half. lra.
  - cbn [upper_bounds]. inversion Hs as [|? ? Hs' Hall]; subst.
    assert (Hc : c < c') by (inversion Hall; assumption).
    destruct (midpoint_between c c' Hc) as [H1 H2].
    constructor; [now apply IH|]. constructor. lra.
Qed.

Lemma upper_bounds_bracket (c : Z) (cs : list Z) (lo : Q) (i : nat) :
  StronglySorted Z.lt (c :: cs) -> (lo < inject_Z c)%Q ->
  (i < List.length (c :: cs))%nat ->
  (nth i (lo :: upper_bounds c cs) 0 < inject_Z (nth i (c :: cs) 0%Z)
   /\ inject_Z (nth i (c :: cs) 0%Z) < nth (S i) (lo :: upper_bounds c cs) 0)%Q.
Proof.
  revert c lo i. induction cs as [|c' cs IH]; intros c lo i Hs Hlo Hi.
  - cbn [List.length] in Hi. assert (i = 0)%nat by lia. subst i.
    cbn. unfold half. split; lra.
  - inversion Hs as [|? ? Hs' Hall]; subst.
    assert (Hc : c < c') by (inversion Hall; assumption).
    destruct (midpoint_between c c' Hc) as [H1 H2].
    destruct i as [|j].
    + cbn. split; lra.
    + cbn [upper_bounds].
      change (nth (S j) (lo :: midpoint c c' :: upper_bounds c' cs) 0%Q)
        with (nth j (midpoint c c' :: upper_bounds c' cs) 0%Q).
      change (nth (S (S j)) (lo :: midpoint c c' :: upper_bounds c' cs) 0%Q)
        with (nth (S j) (midpoint c c' :: upper_bounds c' cs) 0%Q).
      change (nth (S j) (c :: c' :: cs) 0) with (nth j (c' :: cs) 0).
      apply IH; [exact Hs' | exact H2 | cbn [List.length] in *; lia].
Qed.

Lemma bins_of_categories (cats : list Z) :
  NoDup cats -> In 0 cats ->
  let categories := sorted Z.leb cats in
  StronglySorted Z.lt categories /\ In 0 categories /\
  List.length (bin_bounds categories) = S (List.length categories) /\
  Sorted Qlt (bin_bounds categories) /\
  forall i, (i < List.length categories)%nat ->
    (nth i (bin_bounds categories) 0 < inject_Z (nth i categories 0%Z)
     /\ inject_Z (nth i categories 0%Z) < nth (S i) (bin_bounds categories) 0)%Q.
Proof.
  intros Hnd H0 categories.
  pose proof (sorted_nodup_strict cats Hnd) as Hs. fold categories in Hs.
  assert (Hin : In 0 categories)
    by (eapply Permutation_in; [apply sorted_perm | exact H0]).
  destruct categories as [|c cs]; [contradiction|].
  rewrite bin_bounds_cons.
  assert (Hlo : (inject_Z c - half < inject_Z c)%Q) by (unfold half; lra).
  split; [exact Hs|]. split; [exact Hin|].
  split; [cbn [List.length]; now rewrite upper_bounds_length|].
  split; [now apply upper_bounds_sorted|].
  intros i Hi. now apply upper_bounds_bracket.
Qed.

(** X15. Colour bins.  Whatever the percentile representatives are, the
    categories are strictly increasing and contain 0, there is one more
    boundary than categories, the boundaries are strictly increasing, and
    every category lies strictly between its own two boundaries.  When the
    matrix has at most [max_bins] distinct positive values, the categories
    are 0 and exactly those values. *)
Theorem smart_count_bins_contract (percentile_reps : list Z -> Z -> list Z)
                                  (data_matrix : list (list Z)) (max_bins : Z) :
  let categories := fst (smart_count_bins percentile_reps data_matrix max_bins) in
  let bounds := snd (smart_count_bins percentile_reps data_matrix max_bins) in
  StronglySorted Z.lt categories /\ In 0 categories /\
  List.length bounds = S (List.length categories) /\
  Sorted Qlt bounds /\
  (forall i, (i < List.length categories)%nat ->
     (nth i bounds 0 < inject_Z (nth i categories 0%Z)
      /\ inject_Z (nth i categories 0%Z) < nth (S i) bounds 0)%Q) /\
  (len (filter (fun v => 0 <? v) (np_unique (List.concat data_matrix))) <= max_bins ->
   forall v, In v categories <->
             v = 0 \/ (0 < v /\ exists row, In row data_matrix /\ In v row)).
Proof.
  cbv zeta. unfold smart_count_bins.
  destruct (np_unique_spec (List.concat data_matrix)) as [Hvs Hvin].
  remember (np_unique (List.concat data_matrix)) as vals eqn:Evals.
  remember (filter (fun v => 0 <? v) vals) as nonzero eqn:Enz.
  assert (Hnz : forall v, In v nonzero <->
                          0 < v /\ exists row, In row data_matrix /\ In v row).
  { intro v. rewrite Enz, filter_In, Hvin, in_concat, Z.ltb_lt.
    split; [intros [(row & Hr & Hv) Hp] | intros [Hp (row & Hr & Hv)]];
      (split; [|assumption]) || split; try assumption; now exists row. }
  assert (Hnd_nz : NoDup nonzero).
  { rewrite Enz. apply NoDup_filter. now apply strict_sorted_NoDup. }
  assert (Hdefault :
            let categories := [0] in
            let bounds := [Qopp half; half] in
            StronglySorted Z.lt categories /\ In 0 categories /\
            List.length bounds = S (List.length categories) /\
            Sorted Qlt bounds /\
            (forall i, (i < List.length categories)%nat ->
               (nth i bounds 0 < inject_Z (nth i categories 0%Z)
                /\ inject_Z (nth i categories 0%Z) < nth (S i) bounds 0)%Q)).
  { cbv zeta. split; [repeat constructor|]. split; [now left|].
    split; [reflexivity|]. split; [repeat constructor|].
    intros i Hi. cbn [List.length] in Hi. assert (i = 0)%nat by lia. subst i.
    cbn. unfold half. split; reflexivity. }
  cbv zeta in Hdefault.
  destruct vals as [|v0 vs].
  - cbn [fst snd]. destruct Hdefault as (H1 & H2 & H3 & H4 & H5).
    repeat (split; [assumption|]).
    intros _ v. cbn [In]. split; [intros [<-|[]]; now left|].
    intros [<-|[Hp (row & Hr & Hv)]]; [now left|].
    exfalso. assert (Hin : In v (@nil Z)); [|contradiction].
    apply Hvin. apply in_concat. now exists row.
  - destruct nonzero as [|n0 ns].
    + cbn [fst snd]. destruct Hdefault as (H1 & H2 & H3 & H4 & H5).
      repeat (split; [assumption|]).
      intros _ v. cbn [In]. split; [intros [<-|[]]; now left|].
      intros [<-|Hv]; [now left|]. apply Hnz in Hv. contradiction.
    + cbn [fst snd].
      set (cats := if len (n0 :: ns) <=? max_bins then 0 :: n0 :: ns
                   else np_unique (0 :: np_unique (percentile_reps (n0 :: ns) max_bins))).
      assert (Hcats : NoDup cats /\ In 0 cats).
      { unfold cats. destruct (len (n0 :: ns) <=? max_bins).
        - split; [|now left]. constructor.
          + intro H0. apply Hnz in H0. lia.
          + exact Hnd_nz.
        - destruct (np_unique_spec
                      (0 :: np_unique (percentile_reps (n0 :: ns) max_bins))) as [Hs Hi].
          split; [now apply strict_sorted_NoDup | apply Hi; now left]. }
      destruct Hcats as [Hnd H0].
      destruct (bins_of_categories cats Hnd H0) as (H1 & H2 & H3 & H4 & H5).
      repeat (split; [assumption|]).
      intros Hsmall v.
      assert (E : cats = 0 :: n0 :: ns).
      { unfold cats. destruct (Z.leb_spec (len (n0 :: ns)) max_bins); [reflexivity | lia]. }
      rewrite E. split.
      * intro Hv. apply (Permutation_in _ (Permutation_sym (sorted_perm Z.leb _))) in Hv.
        destruct Hv as [<-|Hv]; [now left | right; now apply Hnz].
      * intro Hv. apply (Permutation_in _ (sorted_perm Z.leb _)).
        destruct Hv as [->|Hv]; [now left | right; now apply Hnz].
Qed.

(** * The heatmap table of analysed sites *)

Lemma count_daily_keys_from (ts : list datetime) (m : list (date * Z)) (d : date) :
  In d (map fst (fold_left (fun c t => dict_incr (date_of t) c) ts m)) ->
  In d (map fst m) \/ exists t, In t ts /\ date_of t = d.
Proof.
  revert m; induction ts as [|t ts IH]; intros m H; cbn [fold_left] in H.
  - now left.
  - apply IH in H. destruct H as [H | (t' & Ht' & E)].
    + rewrite dict_incr_keys in H.
      destruct (existsb (date_eqb (date_of t)) (map fst m)); [now left|].
      apply in_app_or in H. destruct H as [H|[<-|[]]]; [now left|].
      right. exists t. split; [now left | reflexivity].
    + right. exists t'. split; [now right | exact E].
Qed.

Lemma analysed_daily_counts (r : site_result) :
  analysed r ->
  NoDup (map fst (daily_counts r)) /\
  sumZ (map snd (daily_counts r)) = actual_recordings r /\
  Forall (fun kv => date_in_range (fst kv)) (daily_counts r).
Proof.
  intros (p0 & ps & Hr).
  destruct (analyze_merged_site_timestamps p0 ps) as (r' & Hr' & _ & Hts & _ & Hdc & Hact).
  rewrite Hr in Hr'. injection Hr' as <-.
  destruct (count_daily_lookup_from (timestamps r) [] (NoDup_nil _)) as [Hn _].
  fold (count_daily (timestamps r)) in Hn.
  split; [now rewrite Hdc|].
  split; [rewrite Hdc, Hact; apply count_daily_sum|].
  apply Forall_forall. intros [d c] Hin. cbn [fst].
  assert (Hd : In d (map fst (count_daily (timestamps r)))).
  { rewrite <- Hdc. apply in_map_iff. now exists (d, c). }
  apply count_daily_keys_from in Hd. destruct Hd as [[] | (t & Ht & <-)].
  assert (Hp : valid_datetime t = true /\ min_valid_year <= year t).
  { apply (site_events_valid (p0 :: ps)).
    eapply Permutation_in; [apply Permutation_sym, sorted_perm|].
    now rewrite <- Hts. }
  destruct Hp as [Hv Hy]. apply valid_datetime_fields in Hv.
  destruct Hv as (Hyr & Hvd & _). split; [exact Hyr | exact Hvd].
Qed.

Lemma dense_rows (results : list site_result) :
  Forall (fun r => Forall (fun kv => date_in_range (fst kv)) (daily_counts r)) results ->
  union_dates results <> [] ->
  create_daily_heatmap_data results
  = map (dense_row (sorted date_leb (union_dates results))) results.
Proof.
  intros Hrange Hne.
  set (dates := sorted date_leb (union_dates results)).
  destruct (union_dates_spec results) as [Hnd Hmem].
  pose proof (sorted_perm date_leb (union_dates results)) as Hperm.
  fold dates in Hperm.
  assert (Hin_range : forall d, In d dates -> date_in_range d).
  { intros d Hd. apply (Permutation_in _ (Permutation_sym Hperm)), Hmem in Hd.
    destruct Hd as (r & Hr & Hd).
    rewrite Forall_forall in Hrange. specialize (Hrange r Hr).
    rewrite Forall_forall in Hrange.
    apply in_map_iff in Hd. destruct Hd as (kv & <- & Hkv). now apply Hrange. }
  assert (Hlabels : NoDup (map strftime_ymd dates)).
  { apply NoDup_map_NoDup_ForallPairs.
    - intros a b Ha Hb E. apply strftime_ymd_inj; auto.
    - eapply Permutation_NoDup; eassumption. }
  unfold create_daily_heatmap_data.
  destruct (union_dates results) as [|d0 u] eqn:Eu; [congruence|].
  apply map_ext. intro r. unfold heatmap_row.
  rewrite heatmap_row_from; [reflexivity | exact Hlabels |].
  intros d Hd [E|[]]. cbn [fst] in E.
  exact (strftime_ymd_not_Site d (Hin_range d Hd) (eq_sym E)).
Qed.

Lemma sum_override (k : date) (v : Z) (g : date -> Z) (dates : list date) :
  NoDup dates -> In k dates -> g k = 0 ->
  sumZ (map (fun d => if date_eqb k d then v else g d) dates)
  = v + sumZ (map g dates).
Proof.
  intros Hd Hkin Hk0. induction dates as [|d l IHl]; [contradiction|].
  cbn [map]. rewrite !sumZ_cons.
  inversion Hd as [|? ? Hdl Hl]; subst.
  destruct (date_eqb k d) eqn:E.
  - apply date_eqb_eq in E. rewrite <- E in *. rewrite Hk0.
    assert (Hrest : map (fun x => if date_eqb k x then v else g x) l = map g l).
    { apply map_ext_in. intros x Hin.
      destruct (date_eqb k x) eqn:E'; [|reflexivity].
      apply date_eqb_eq in E'. rewrite <- E' in Hin. contradiction. }
    rewrite Hrest. lia.
  - destruct Hkin as [->|Hkin].
    + rewrite (proj2 (date_eqb_eq k k) eq_refl) in E. discriminate.
    + rewrite (IHl Hl Hkin). lia.
Qed.

Lemma sum_dict_get (m : list (date * Z)) (dates : list date) :
  NoDup (map fst m) -> NoDup dates ->
  (forall d, In d (map fst m) -> In d dates) ->
  sumZ (map (fun d => dict_get d m 0) dates) = sumZ (map snd m).
Proof.
  revert dates. induction m as [|[k v] m IH]; intros dates Hm Hd Hsub.
  - cbn [dict_get map snd]. clear. induction dates as [|d l IHl]; [reflexivity|].
    cbn [map]. rewrite sumZ_cons, IHl. reflexivity.
  - cbn [map fst snd] in *. rewrite sumZ_cons.
    inversion Hm as [|? ? Hk Hm']; subst.
    rewrite <- (IH dates Hm' Hd) by (intros d Hin; apply Hsub; now right).
    change (map (fun d => dict_get d ((k, v) :: m) 0) dates)
      with (map (fun d => if date_eqb k d then v else dict_get d m 0) dates).
    apply sum_override; [exact Hd | apply Hsub; now left | now apply dict_get_absent].
Qed.

Lemma row_total_dense (dates : list date) (r : site_result) :
  row_total (dense_row dates r)
  = sumZ (map (fun d => dict_get d (daily_counts r) 0) dates).
Proof.
  unfold row_total, dense_row. cbn [map snd]. rewrite sumZ_cons, map_map.
  cbn [snd]. lia.
Qed.

(** X16. The heatmap table of analysed sites, at least one of which has an
    event, has one row per site, and the counts of each row add up to the
    valid recordings of its site: no event is lost or counted twice when
    the sparse daily counts are spread over the common date axis. *)
Theorem heatmap_rows_total_recordings (results : list site_result) :
  Forall analysed results ->
  union_dates results <> [] ->
  map row_total (create_daily_heatmap_data results)
  = map actual_recordings results.
Proof.
  intros Han Hne.
  assert (Hrange : Forall (fun r => Forall (fun kv => date_in_range (fst kv))
                                           (daily_counts r)) results).
  { eapply Forall_impl; [|exact Han]. intros r Hr.
    now destruct (analysed_daily_counts r Hr) as (_ & _ & H). }
  rewrite (dense_rows results Hrange Hne), map_map.
  destruct (union_dates_spec results) as [Hnd Hmem].
  pose proof (sorted_perm date_leb (union_dates results)) as Hperm.
  apply map_ext_in. intros r Hr.
  rewrite Forall_forall in Han.
  destruct (analysed_daily_counts r (Han r Hr)) as (Hkeys & Hsum & _).
  rewrite row_total_dense, <- Hsum. apply sum_dict_get.
  - exact Hkeys.
  - eapply Permutation_NoDup; eassumption.
  - intros d Hd. apply (Permutation_in _ Hperm), Hmem. now exists r.
Qed.

Lemma heatmap_rows_total_recordings_witness :
  exists r,
    analyze_merged_site
      [mkPath "A1" ["20250601_000000.WAV"; "20250601_000100.WAV";
                    "20250603_000000.WAV"]%string] = Ok r /\
    map row_total (create_daily_heatmap_data [r]) = map actual_recordings [r].
Proof.
  eexists. split; [vm_compute; reflexivity|].
  apply heatmap_rows_total_recordings.
  - repeat constructor.
    exists (mkPath "A1" ["20250601_000000.WAV"; "20250601_000100.WAV";
                         "20250603_000000.WAV"]%string), [].
    vm_compute. reflexivity.
  - vm_compute. discriminate.
Defined.

Lemma report_is_consistent_witness :
  exists rep,
    analyze_all_sites
      (Some [mkPath "L5" ["20250601_000000.WAV"%string];
             mkPath "L5-2" ["20250602_000000.wav"%string];
             mkPath "K" ["20250601_000000.WAV"; "20250603_000000.WAV"]%string])
    = Ok (Some rep) /\
    map site (site_results rep) = ["K"; "L5"]%string /\
    sumZ (map n_folders (site_results rep)) = 3.
Proof.
  destruct (report_is_consistent
              [mkPath "L5" ["20250601_000000.WAV"%string];
               mkPath "L5-2" ["20250602_000000.wav"%string];
               mkPath "K" ["20250601_000000.WAV"; "20250603_000000.WAV"]%string])
    as (rep & Hrep & Hsites & _ & _ & _ & _ & _ & _ & _ & Hfolders & _).
  - intros k g H. vm_compute in H.
    destruct H as [E|[E|[]]]; injection E as <- <-; vm_compute; discriminate.
  - exists rep. split; [exact Hrep|]. split; [|exact Hfolders].
    rewrite Hsites. reflexivity.
Defined.

(** * What the file counts count *)

Lemma parsed_length_filter (files : list string) :
  len (parsed files) = len (filter parses files)
  /\ len files = len (filter parses files) + len (filter (fun f => negb (parses f)) files).
Proof.
  induction files as [|f l [IH1 IH2]]; [split; reflexivity|].
  unfold parsed. cbn [flat_map filter]. fold (parsed l).
  change (parses f) with (match parse_audiomoth_filename f with
                          | Some _ => true
                          | None => false
                          end).
  rewrite len_app.
  destruct (parse_audiomoth_filename f); cbn [negb];
    unfold len in *; cbn [List.length]; lia.
Qed.

Lemma parsed_app (l1 l2 : list string) : parsed (l1 ++ l2) = parsed l1 ++ parsed l2.
Proof. unfold parsed. apply flat_map_app. Qed.

Lemma site_events_parsed (site_paths : list Path) :
  site_events site_paths = parsed (site_files site_paths).
Proof.
  unfold site_events, site_files.
  induction (sorted path_leb site_paths) as [|p l IH]; [reflexivity|].
  cbn [flat_map]. now rewrite parsed_app, IH.
Qed.

(** X17. The counts of a site result say how the scanned files fared with
    the parser: the valid recordings are the scanned files whose name
    parses, the invalid files are those whose name does not, and the
    scanned files are the entries of the site's folders that end in
    [.WAV] or [.wav]. *)
Theorem file_counts_follow_the_parser (p0 : Path) (ps : list Path) :
  exists r,
    analyze_merged_site (p0 :: ps) = Ok r /\
    n_files r = len (flat_map folder_files (sorted path_leb (p0 :: ps))) /\
    actual_recordings r = len (filter parses (site_files (p0 :: ps))) /\
    invalid_files r = len (filter (fun f => negb (parses f)) (site_files (p0 :: ps))).
Proof.
  destruct (parsed_length_filter (site_files (p0 :: ps))) as [H1 H2].
  rewrite <- site_events_parsed in H1.
  assert (Hdec : site_events (p0 :: ps) = [] \/ site_events (p0 :: ps) <> [])
    by (destruct (site_events (p0 :: ps)); [now left | right; discriminate]).
  destruct Hdec as [Ev|Hne].
  - eexists. split; [apply (analyze_merged_site_empty p0 ps Ev)|].
    cbn [n_files actual_recordings invalid_files].
    rewrite Ev in H1. change (len (@nil datetime)) with 0 in H1.
    split; [reflexivity|]. split; lia.
  - destruct (analyze_merged_site_events p0 ps Hne) as (f & rest & m & _ & _ & _ & Hr).
    cbv zeta in Hr.
    set (ts := sorted dt_leb (site_events (p0 :: ps))) in *.
    eexists. split; [exact Hr|].
    cbn [n_files actual_recordings invalid_files].
    assert (Hlen : len ts = len (site_events (p0 :: ps))).
    { unfold len, ts. now rewrite (sorted_length dt_leb). }
    split; [reflexivity|]. split; lia.
Qed.

Lemma month_ticks_at_month_changes_witness :
  exists ticks labels boundaries,
    compute_month_info [mkdt 2025 6 30 0 0 0; mkdt 2025 7 1 0 0 0]
    = Ok (ticks, labels, boundaries) /\ In 1 ticks.
Proof.
  destruct (proj2 (month_ticks_at_month_changes
                     (mkdt 2025 6 30 0 0 0) [mkdt 2025 7 1 0 0 0]))
    as (ticks & labels & boundaries & Hc & _ & _ & _ & Hiff & _).
  exists ticks, labels, boundaries. split; [exact Hc|].
  apply (Hiff 1%nat); [cbn; lia | cbn; discriminate].
Defined.

Lemma smart_count_bins_contract_witness :
  In 3 (fst (smart_count_bins (fun _ _ => []) [[0; 3]; [1; 3]] 7)).
Proof.
  destruct (smart_count_bins_contract (fun _ _ => []) [[0; 3]; [1; 3]] 7)
    as (_ & _ & _ & _ & _ & H).
  apply H.
  - vm_compute. discriminate.
  - right. split; [lia|]. exists [0; 3]. split; [now left | right; now left].
Defined.
